(** * LossTool: regression-error statistics between two paired datasets

    A shallow embedding of [losstool.py].  The metric functions are written
    once over an arithmetic interface [Arith]; the program runs them on
    NumPy [float64] arrays, which is the instance [binary64] (IEEE 754
    double precision, as specified by the standard library's [SpecFloat]).
    A second instance over the real numbers gives the exact value of the
    same formulas.

    NumPy calls are modelled after the library's behaviour:
    [np_sum] is the add-reduction with pairwise summation, [np_mean] divides
    the sum by the element count, [x ** 2] is the elementwise square,
    [np_min] and [np_max] are the minimum and maximum reductions, and
    [genfromtxt] parses a file given as its lines of numeric fields. *)

From Equations Require Import Equations.
From Stdlib Require Import ZArith String Ascii DecimalString List Bool Lia Arith.
From Stdlib Require Import Permutation.
From Stdlib Require Import Reals Lra.
From Stdlib Require Import Floats.SpecFloat.
Import ListNotations.

Set Implicit Arguments.

(** ** Python outcomes *)

Module Py.

Inductive exn :=
| IOError
| ValueError (msg : string)
| IndexError (msg : string)
| SystemExit (code : Z).

Inductive outcome (A : Type) :=
| Return (a : A)
| Raise (e : exn).
Arguments Return {A} a.
Arguments Raise {A} e.

Definition bind {A B} (m : outcome A) (k : A -> outcome B) : outcome B :=
  match m with
  | Return a => k a
  | Raise e => Raise e
  end.

End Py.
Export Py.

Declare Scope py_scope.
Delimit Scope py_scope with py.
Notation "x <- m ;; k" := (bind m (fun x => k))
  (at level 61, m at next level, right associativity) : py_scope.
Open Scope py_scope.

(** ** The arithmetic the metrics are computed in *)

Class Arith (F : Type) := {
  f_of_int : Z -> F;            (* conversion of a Python int *)
  f_add : F -> F -> F;
  f_sub : F -> F -> F;
  f_mul : F -> F -> F;
  f_div : F -> F -> F;
  f_abs : F -> F;
  f_sqrt : F -> F;
  f_lt : F -> F -> bool;        (* the comparison [<] *)
  f_isnan : F -> bool
}.

(** IEEE 754 binary64, the element type of the arrays [np.genfromtxt]
    returns. *)
Module Float64.

Definition prec : Z := 53.
Definition emax : Z := 1024.

Definition float64 := spec_float.

Definition of_int (z : Z) : float64 := binary_normalize prec emax z 0 false.
Definition add : float64 -> float64 -> float64 := SFadd prec emax.
Definition sub : float64 -> float64 -> float64 := SFsub prec emax.
Definition mul : float64 -> float64 -> float64 := SFmul prec emax.
Definition div : float64 -> float64 -> float64 := SFdiv prec emax.
Definition sqrt : float64 -> float64 := SFsqrt prec emax.
Definition abs : float64 -> float64 := SFabs.
Definition ltb : float64 -> float64 -> bool := SFltb.
Definition leb : float64 -> float64 -> bool := SFleb.
Definition eqb : float64 -> float64 -> bool := SFeqb.

Definition isnan (x : float64) : bool :=
  match x with S754_nan => true | _ => false end.

Definition isfinite (x : float64) : bool :=
  match x with S754_zero _ | S754_finite _ _ _ => true | _ => false end.

Definition nan : float64 := S754_nan.
Definition pos_zero : float64 := S754_zero false.

(** The float64 nearest to the decimal literal [m / 10^k], for [m] and
    [10^k] exactly representable (a correctly rounded division). *)
Definition decimal (m : Z) (k : nat) : float64 :=
  div (of_int m) (of_int (10 ^ Z.of_nat k)).

End Float64.
Import Float64.

#[export] Instance binary64 : Arith float64 := {
  f_of_int := Float64.of_int;
  f_add := Float64.add;
  f_sub := Float64.sub;
  f_mul := Float64.mul;
  f_div := Float64.div;
  f_abs := Float64.abs;
  f_sqrt := Float64.sqrt;
  f_lt := Float64.ltb;
  f_isnan := Float64.isnan
}.

(** Exact real arithmetic: the value the formulas denote without rounding. *)
Definition Rltb (x y : R) : bool := if Rlt_dec x y then true else false.

#[export] Instance exact : Arith R := {
  f_of_int := IZR;
  f_add := Rplus;
  f_sub := Rminus;
  f_mul := Rmult;
  f_div := Rdiv;
  f_abs := Rabs;
  f_sqrt := R_sqrt.sqrt;
  f_lt := Rltb;
  f_isnan := fun _ => false
}.

(** ** Text *)

(** [str(n)] for a non-negative int. *)
Definition str_of_nat (n : nat) : string :=
  NilEmpty.string_of_uint (Nat.to_uint n).

Definition newline : string := String (ascii_of_nat 10) EmptyString.

(** ** NumPy operations on one-dimensional arrays *)

Section Numpy.
Context {F : Type} {AF : Arith F}.

(** The message of a failed broadcast names the two shapes, in the order
    of the operands. *)
Definition broadcast_msg (n m : nat) : string :=
  ("operands could not be broadcast together with shapes (" ++
   str_of_nat n ++ ",) (" ++ str_of_nat m ++ ",) ")%string.

(** [a - b]: elementwise, a length-1 operand being broadcast. *)
Definition np_subtract (a b : list F) : outcome (list F) :=
  if Nat.eqb (length a) (length b) then
    Return (map (fun p => f_sub (fst p) (snd p)) (combine a b))
  else
    match a, b with
    | [x], _ => Return (map (fun y => f_sub x y) b)
    | _, [y] => Return (map (fun x => f_sub x y) a)
    | _, _ => Raise (ValueError (broadcast_msg (length a) (length b)))
    end.

(** [a - s] for a scalar [s]. *)
Definition np_subtract_scalar (a : list F) (s : F) : list F :=
  map (fun x => f_sub x s) a.

(** [a ** 2]: NumPy evaluates the power 2 as the square [x * x]. *)
Definition np_square (a : list F) : list F := map (fun x => f_mul x x) a.

Definition np_abs (a : list F) : list F := map f_abs a.

Definition np_sqrt (x : F) : F := f_sqrt x.

(** The float add-reduction.  Fewer than 8 elements are added left to
    right; a block of at most 128 elements is added in 8 interleaved
    accumulators that are then combined as a balanced tree, the remaining
    elements being added last; a longer array is split in two, the first
    part a multiple of 8 long. *)
Definition acc8_t : Type := (F * F * F * F * F * F * F * F)%type.

Definition acc8_combine (r : acc8_t) : F :=
  let '(r0, r1, r2, r3, r4, r5, r6, r7) := r in
  f_add (f_add (f_add r0 r1) (f_add r2 r3))
        (f_add (f_add r4 r5) (f_add r6 r7)).

Fixpoint acc8_loop (r : acc8_t) (a : list F) : F :=
  match a with
  | a0 :: a1 :: a2 :: a3 :: a4 :: a5 :: a6 :: a7 :: rest =>
      let '(r0, r1, r2, r3, r4, r5, r6, r7) := r in
      acc8_loop (f_add r0 a0, f_add r1 a1, f_add r2 a2, f_add r3 a3,
                 f_add r4 a4, f_add r5 a5, f_add r6 a6, f_add r7 a7) rest
  | _ => fold_left f_add a (acc8_combine r)
  end.

Definition block_sum (a : list F) : F :=
  match a with
  | a0 :: a1 :: a2 :: a3 :: a4 :: a5 :: a6 :: a7 :: rest =>
      acc8_loop (a0, a1, a2, a3, a4, a5, a6, a7) rest
  | _ => fold_left f_add a (f_of_int 0)
  end.

Definition PW_BLOCKSIZE : nat := 128.

Definition split_point (n : nat) : nat := n / 2 - (n / 2) mod 8.

Equations? pairwise_sum (a : list F) : F by wf (length a) lt :=
  pairwise_sum a with le_lt_dec (length a) PW_BLOCKSIZE => {
    | left _ => block_sum a
    | right _ =>
        f_add (pairwise_sum (firstn (split_point (length a)) a))
              (pairwise_sum (skipn (split_point (length a)) a)) }.
Proof.
  - rewrite length_firstn. unfold PW_BLOCKSIZE, split_point in *.
    pose proof (Nat.div_lt (length a) 2). lia.
  - rewrite length_skipn. unfold PW_BLOCKSIZE, split_point in *.
    assert (64 <= length a / 2) by (apply Nat.div_le_lower_bound; lia).
    pose proof (Nat.mod_upper_bound (length a / 2) 8). lia.
Qed.

(** [np.sum(a)]: the reduction starts from the identity of addition. *)
Definition np_sum (a : list F) : F := f_add (f_of_int 0) (pairwise_sum a).

(** [np.mean(a)]: the sum divided by the number of elements. *)
Definition np_mean (a : list F) : F :=
  f_div (np_sum a) (f_of_int (Z.of_nat (length a))).

End Numpy.

(** ** Arrays of up to two dimensions *)

Section Ndarray.
Context {F : Type}.

(** A zero-dimensional array, a vector, or an [r] by [c] matrix given by
    its rows. *)
Inductive ndarray :=
| Arr0 (x : F)
| Arr1 (v : list F)
| Arr2 (r c : nat) (rows : list (list F)).

(** [a.shape] *)
Definition shape (a : ndarray) : list nat :=
  match a with
  | Arr0 _ => []
  | Arr1 v => [length v]
  | Arr2 r c _ => [r; c]
  end.

(** [t[i]] on a tuple. *)
Definition tuple_item (t : list nat) (i : nat) : outcome nat :=
  match nth_error t i with
  | Some n => Return n
  | None => Raise (IndexError "tuple index out of range")
  end.

Definition column (j : nat) (rows : list (list F)) : list F :=
  flat_map (fun row => match nth_error row j with
                       | Some x => [x]
                       | None => []
                       end) rows.

(** [a.T]: reverses the axes, so it leaves arrays of fewer than two
    dimensions unchanged. *)
Definition transpose (a : ndarray) : ndarray :=
  match a with
  | Arr2 r c rows => Arr2 c r (map (fun j => column j rows) (seq 0 c))
  | _ => a
  end.

(** [np.squeeze(a)]: drops the axes of length one. *)
Definition squeeze (a : ndarray) : ndarray :=
  match a with
  | Arr2 r c rows =>
      match Nat.eqb r 1, Nat.eqb c 1, concat rows with
      | true, true, [x] => Arr0 x
      | true, false, v => Arr1 v
      | false, true, v => Arr1 v
      | _, _, _ => a
      end
  | _ => a
  end.

Definition out_of_bounds_msg (i size : nat) : string :=
  ("index " ++ str_of_nat i ++ " is out of bounds for axis 0 with size " ++
   str_of_nat size)%string.

Definition too_many_indices_msg (ndim : nat) : string :=
  ("too many indices for array: array is " ++ str_of_nat ndim ++
   "-dimensional, but 2 were indexed")%string.

(** [a[i, :]] *)
Definition index_row (a : ndarray) (i : nat) : outcome (list F) :=
  match a with
  | Arr2 r c rows =>
      match nth_error rows i with
      | Some row => Return row
      | None => Raise (IndexError (out_of_bounds_msg i r))
      end
  | Arr1 _ => Raise (IndexError (too_many_indices_msg 1))
  | Arr0 _ => Raise (IndexError (too_many_indices_msg 0))
  end.

(** A file that can be read is a list of lines, each the list of its
    numeric fields: a blank line or a comment has no field, and a field
    that is not a number reads as NaN. *)
Definition filesystem : Type := string -> option (list (list F)).

(** The lines up to the first one with a field are not counted. *)
Fixpoint skip_blank (lines : list (list F)) : list (list F) :=
  match lines with
  | [] :: rest => skip_blank rest
  | _ => lines
  end.

(** The loop over the lines after the first: line number [i] is skipped
    when it has no field, kept as a row when it has [nbcols] fields, and
    otherwise recorded with its number of fields. *)
Fixpoint scan_lines (nbcols i : nat) (lines : list (list F))
  : list (list F) * list (nat * nat) :=
  match lines with
  | [] => ([], [])
  | line :: rest =>
      let (rows, invalid) := scan_lines nbcols (S i) rest in
      match line with
      | [] => (rows, invalid)
      | _ => if Nat.eqb (length line) nbcols then (line :: rows, invalid)
             else (rows, (i, length line) :: invalid)
      end
  end.

Definition invalid_line_msg (nbcols : nat) (bad : nat * nat) : string :=
  ("    Line #" ++ str_of_nat (fst bad) ++ " (got " ++ str_of_nat (snd bad) ++
   " columns instead of " ++ str_of_nat nbcols ++ ")")%string.

(** The first line of the message, then one line per invalid line. *)
Definition genfromtxt_msg (nbcols : nat) (invalid : list (nat * nat)) : string :=
  fold_left (fun msg bad => (msg ++ newline ++ invalid_line_msg nbcols bad)%string)
            invalid "Some errors were detected !"%string.

(** [np.genfromtxt(filename)]: every row must have as many fields as the
    first one; the rows form a matrix, which is squeezed. *)
Definition genfromtxt (fs : filesystem) (filename : string) : outcome ndarray :=
  match fs filename with
  | None => Raise IOError
  | Some lines =>
      match skip_blank lines with
      | [] => Return (Arr1 [])
      | first :: others =>
          let nbcols := length first in
          let (rows, invalid) := scan_lines nbcols 2 others in
          match invalid with
          | [] => Return (squeeze (Arr2 (S (length rows)) nbcols (first :: rows)))
          | _ => Raise (ValueError (genfromtxt_msg nbcols invalid))
          end
      end
  end.

End Ndarray.
Arguments ndarray F : clear implicits.
Arguments filesystem F : clear implicits.

(** ** Output: the lines printed so far, and how the call ended *)

Definition io (A : Type) : Type := (list string * outcome A)%type.

Definition io_ret {A} (a : A) : io A := ([], Return a).
Definition io_raise {A} (e : exn) : io A := ([], Raise e).
Definition print (line : string) : io unit := ([line], Return tt).
Definition sys_exit {A} (code : Z) : io A := io_raise (SystemExit code).
Definition lift {A} (m : outcome A) : io A := ([], m).

Definition io_bind {A B} (m : io A) (k : A -> io B) : io B :=
  match m with
  | (out, Return a) => let (out', r) := k a in (out ++ out', r)
  | (out, Raise e) => (out, Raise e)
  end.

Notation "x <<- m ;; k" := (io_bind m (fun x => k))
  (at level 61, m at next level, right associativity) : py_scope.
Notation "m >> k" := (io_bind m (fun _ => k))
  (at level 61, right associativity) : py_scope.

(** ** The program *)

Section LossTool.
Context {F : Type} {AF : Arith F}.
Local Open Scope string_scope.

Definition two_columns_msg (filename : string) : string :=
  "Input file " ++ filename ++ " must contain exactly two columns.".

Definition unreadable_msg (filename : string) : string :=
  "Error: Unable to read file '" ++ filename ++
  "'. Please check if the file exists and you have read permissions.".

(** The body of the [try] statement of [load_data]. *)
Definition load_data_try (fs : filesystem F) (filename : string)
  : outcome (ndarray F) :=
  a <- genfromtxt fs filename ;;
  let data := transpose a in
  n <- tuple_item (shape data) 0 ;;
  if negb (Nat.eqb n 2) then Raise (ValueError (two_columns_msg filename))
  else Return data.

Definition load_data (fs : filesystem F) (filename : string)
  : io (ndarray F) :=
  match load_data_try fs filename with
  | Return data => io_ret data
  | Raise IOError => print (unreadable_msg filename) >> sys_exit 1
  | Raise (ValueError e) => print ("Error: " ++ e) >> sys_exit 1
  | Raise e => io_raise e
  end.

Definition mean_squared_error (y_true y_pred : list F) : outcome F :=
  d <- np_subtract y_true y_pred ;;
  Return (np_mean (np_square d)).

Definition mean_absolute_error (y_true y_pred : list F) : outcome F :=
  d <- np_subtract y_true y_pred ;;
  Return (np_mean (np_abs d)).

Definition root_mean_squared_error (y_true y_pred : list F) : outcome F :=
  m <- mean_squared_error y_true y_pred ;;
  Return (np_sqrt m).

(** The local variables [ss_res] and [ss_tot] of [r_squared]. *)
Definition ss_res (y_true y_pred : list F) : outcome F :=
  d <- np_subtract y_true y_pred ;;
  Return (np_sum (np_square d)).

Definition ss_tot (y_true : list F) : F :=
  np_sum (np_square (np_subtract_scalar y_true (np_mean y_true))).

Definition r_squared (y_true y_pred : list F) : outcome F :=
  res <- ss_res y_true y_pred ;;
  let tot := ss_tot y_true in
  Return (f_sub (f_of_int 1) (f_div res tot)).

Definition calculate_losses (ref_data obtained_data : ndarray F)
  : outcome (list (string * F)) :=
  y_true <- index_row ref_data 1 ;;
  y_pred <- index_row obtained_data 1 ;;
  mse <- mean_squared_error y_true y_pred ;;
  mae <- mean_absolute_error y_true y_pred ;;
  rmse <- root_mean_squared_error y_true y_pred ;;
  r2 <- r_squared y_true y_pred ;;
  Return [("MSE", mse); ("MAE", mae); ("RMSE", rmse); ("R-squared", r2)].

Definition same_shape_msg : string :=
  "Reference and obtained data must have the same shape.".

Definition check_data_consistency (ref_data obtained_data : ndarray F)
  : outcome unit :=
  if list_eq_dec Nat.eq_dec (shape ref_data) (shape obtained_data)
  then Return tt
  else Raise (ValueError same_shape_msg).

End LossTool.

(** ** The command line driver *)

(** The namespace [parse_arguments] returns. *)
Record args := { ref_file : string; obtained_file : string; precision : Z }.

Section Main.
Context {F : Type} {AF : Arith F}.
Local Open Scope string_scope.

(** [format(value, f".{precision}f")], the fixed-point rendering of a
    float; it raises for a precision Python refuses. *)
Variable format_float : Z -> F -> outcome string.

(** One step of the [min] and [max] reductions: the accumulator [a] is
    kept when it is NaN or strictly beyond [b]; of two equal extremes the
    later one is kept. *)
Definition f_minimum (a b : F) : F := if f_lt a b || f_isnan a then a else b.
Definition f_maximum (a b : F) : F := if f_lt b a || f_isnan a then a else b.

Definition zero_size_msg (op : string) : string :=
  "zero-size array to reduction operation " ++ op ++
  " which has no identity".

(** The reduction loop over the elements after the first, which is the
    initial accumulator: eight interleaved partial results while eight
    more elements are left, combined as a balanced tree and then with the
    accumulator; the remaining elements are taken one by one. *)
Definition combine8 (op : F -> F -> F) (m : acc8_t) : F :=
  let '(m0, m1, m2, m3, m4, m5, m6, m7) := m in
  op (op (op m0 m1) (op m2 m3)) (op (op m4 m5) (op m6 m7)).

Fixpoint gather8 (op : F -> F -> F) (m : acc8_t) (a : list F) : F * list F :=
  match a with
  | a0 :: a1 :: a2 :: a3 :: a4 :: a5 :: a6 :: a7 :: rest =>
      let '(m0, m1, m2, m3, m4, m5, m6, m7) := m in
      gather8 op (op m0 a0, op m1 a1, op m2 a2, op m3 a3,
                  op m4 a4, op m5 a5, op m6 a6, op m7 a7) rest
  | _ => (combine8 op m, a)
  end.

Definition reduce_from (op : F -> F -> F) (acc : F) (rest : list F) : F :=
  match rest with
  | m0 :: m1 :: m2 :: m3 :: m4 :: m5 :: m6 :: m7 :: tail =>
      let (c, tail') := gather8 op (m0, m1, m2, m3, m4, m5, m6, m7) tail in
      fold_left op tail' (op acc c)
  | _ => fold_left op rest acc
  end.

(** [a.min()] and [a.max()] *)
Definition np_min (a : list F) : outcome F :=
  match a with
  | [] => Raise (ValueError (zero_size_msg "minimum"))
  | x :: rest => Return (reduce_from f_minimum x rest)
  end.

Definition np_max (a : list F) : outcome F :=
  match a with
  | [] => Raise (ValueError (zero_size_msg "maximum"))
  | x :: rest => Return (reduce_from f_maximum x rest)
  end.

Fixpoint print_losses (p : Z) (losses : list (string * F)) : io unit :=
  match losses with
  | [] => io_ret tt
  | (loss_name, loss_value) :: rest =>
      s <<- lift (format_float p loss_value) ;;
      print (loss_name ++ ": " ++ s) >>
      print_losses p rest
  end.

(** One line [label: min to max] over row [i] of [data]. *)
Definition range_line (label : string) (p : Z) (data : ndarray F) (i : nat)
  : outcome string :=
  lo_row <- index_row data i ;;
  lo <- np_min lo_row ;;
  lo_s <- format_float p lo ;;
  hi_row <- index_row data i ;;
  hi <- np_max hi_row ;;
  hi_s <- format_float p hi ;;
  Return (label ++ ": " ++ lo_s ++ " to " ++ hi_s).

Definition main (fs : filesystem F) (a : args) : io unit :=
  ref_data <<- load_data fs (ref_file a) ;;
  obtained_data <<- load_data fs (obtained_file a) ;;
  match check_data_consistency ref_data obtained_data with
  | Raise (ValueError e) => print ("Error: " ++ e) >> sys_exit 1
  | r => lift r
  end >>
  losses <<- lift (calculate_losses ref_data obtained_data) ;;
  print "Loss values:" >>
  print_losses (precision a) losses >>
  print (newline ++ "Additional Statistics:") >>
  n <<- lift (tuple_item (shape ref_data) 1) ;;
  print ("Number of data points: " ++ str_of_nat n) >>
  x_line <<- lift (range_line "X range" (precision a) ref_data 0) ;;
  print x_line >>
  y_ref_line <<- lift (range_line "Y range (reference)" (precision a) ref_data 1) ;;
  print y_ref_line >>
  y_obt_line <<- lift (range_line "Y range (obtained)" (precision a) obtained_data 1) ;;
  print y_obt_line.

End Main.

(** ** Predicates used in the statements *)

(** A float that is not NaN and carries the sign [s]. *)
Definition signed (s : bool) (x : spec_float) : Prop :=
  match x with
  | S754_zero s' | S754_infinity s' | S754_finite s' _ _ => s' = s
  | S754_nan => False
  end.

(** A nonzero float of sign [s]; it is infinite only if [bound] exceeds
    the largest exponent. *)
Definition positive_result (prec emax : Z) (s : bool) (bound : Z)
  (x : spec_float) : Prop :=
  match x with
  | S754_finite s' _ _ => s' = s
  | S754_infinity s' => s' = s /\ (emax - prec < bound)%Z
  | _ => False
  end.

(** [0 <= x] as the float comparison decides it; false of NaN. *)
Definition nonnegative (x : float64) : Prop := Float64.leb pos_zero x = true.

(** [x == 0]: either zero. *)
Definition is_zero (x : float64) : bool := Float64.eqb x pos_zero.

(** The mathematical sum of a list of reals. *)
Definition Rsum (a : list R) : R := fold_right Rplus 0%R a.

Definition all8 {F : Type} (P : F -> Prop) (r : acc8_t (F := F)) : Prop :=
  let '(r0, r1, r2, r3, r4, r5, r6, r7) := r in
  P r0 /\ P r1 /\ P r2 /\ P r3 /\ P r4 /\ P r5 /\ P r6 /\ P r7.

(** A readable file whose rows all hold exactly two fields. *)
Definition two_column_rows {F : Type} (rows : list (list F)) : Prop :=
  rows <> [] /\ Forall (fun row => length row = 2) rows.


(** The lines after the first that [np.genfromtxt] reports: those with
    some fields, but not [nbcols] of them, each with its number (the first
    line has number 1) and its number of fields. *)
Definition numbered_bad_lines {F : Type} (nbcols : nat)
  (others : list (list F)) : list (nat * nat) :=
  filter (fun bad => negb (Nat.eqb (snd bad) 0) && negb (Nat.eqb (snd bad) nbcols))
         (combine (seq 2 (length others)) (map (@length F) others)).

(** The row of a file that holds the point [(x, y)]. *)
Definition point_row {F : Type} (p : F * F) : list F := [fst p; snd p].

(** Rows that all hold [c] fields. *)
Definition rectangular {F : Type} (c : nat) (rows : list (list F)) : Prop :=
  Forall (fun row => length row = c) rows.


(** ** The metric formulas as the specification words them *)

(** [combines op unit terms v]: [v] is obtained by combining the [terms]
    with [op], each term once, in some order and grouping; an empty group
    counts for the [unit], if there is one. *)
Inductive combines {F : Type} (op : F -> F -> F) (unit : option F)
  : list F -> F -> Prop :=
| combines_unit e : unit = Some e -> combines op unit [] e
| combines_one x : combines op unit [x] x
| combines_op l1 l2 v1 v2 :
    combines op unit l1 v1 -> combines op unit l2 v2 ->
    combines op unit (l1 ++ l2) (op v1 v2)
| combines_perm l l' v :
    Permutation l l' -> combines op unit l v -> combines op unit l' v.

Section SpecFormulas.
Context {F : Type} {AF : Arith F}.

(** [v] is a sum of the [terms]: every term is added exactly once.  In
    exact arithmetic this is the sum; in float64 the value depends on the
    order of the additions, which the specification leaves open. *)
Definition sums_to (terms : list F) (v : F) : Prop :=
  combines f_add (Some (f_of_int 0)) terms v.

(** [a[i]] *)
Definition at_index (a : list F) (i : nat) : F := nth i a (f_of_int 0).

(** The terms [f(0), ..., f(n - 1)] of a sum over [i]. *)
Definition terms_over (n : nat) (f : nat -> F) : list F := map f (seq 0 n).

(** [(a - b)^2] *)
Definition squared_difference (a b : F) : F := f_mul (f_sub a b) (f_sub a b).

End SpecFormulas.

(** * Facts about IEEE rounding *)

Section Rounding.
Variables prec emax : Z.
Hypothesis prec_pos : (0 < prec)%Z.
Local Open Scope Z_scope.

Lemma digits2_pos_size p : digits2_pos p = Pos.size p.
Proof. induction p; simpl; congruence. Qed.

Lemma Zdigits2_log2 m : 0 < m -> Zdigits2 m = Z.log2 m + 1.
Proof.
  destruct m as [|p|p]; try lia. intros _. simpl.
  rewrite digits2_pos_size. destruct p; simpl; lia.
Qed.

Lemma shr_1_m r : 0 <= shr_m r -> shr_m (shr_1 r) = Z.div2 (shr_m r).
Proof.
  destruct r as [m r s]. simpl. destruct m as [|[p|p|]|p]; simpl; intros; try reflexivity; lia.
Qed.

Lemma shr_m_iter p : forall r, 0 <= shr_m r ->
  shr_m (iter_pos shr_1 p r) = Z.shiftr (shr_m r) (Zpos p).
Proof.
  induction p as [p IH|p IH|]; intros r Hr; simpl.
  - assert (H1 : 0 <= shr_m (shr_1 r)).
    { rewrite shr_1_m by assumption. rewrite Z.div2_spec. now apply Z.shiftr_nonneg. }
    rewrite IH, IH, shr_1_m, Z.div2_spec, !Z.shiftr_shiftr by
      (try assumption; try lia; rewrite IH by assumption; now apply Z.shiftr_nonneg).
    f_equal. lia.
  - rewrite IH, IH, Z.shiftr_shiftr by
      (try assumption; try lia; rewrite IH by assumption; now apply Z.shiftr_nonneg).
    f_equal. lia.
  - rewrite shr_1_m by assumption. apply Z.div2_spec.
Qed.

Lemma shr_m_of_loc m l : shr_m (shr_record_of_loc m l) = m.
Proof. destruct l as [|[]]; reflexivity. Qed.

Lemma shr_fexp_nonneg m e l :
  0 <= m -> 0 <= shr_m (fst (shr_fexp prec emax m e l)).
Proof.
  intros Hm. unfold shr_fexp, shr.
  destruct (fexp prec emax (Zdigits2 m + e) - e) as [|k|k]; simpl;
    rewrite ?shr_m_iter, ?shr_m_of_loc; try assumption;
    try (rewrite shr_m_of_loc; assumption).
  now apply Z.shiftr_nonneg.
Qed.

Lemma shr_fexp_pos m e l :
  0 < m -> emin prec emax <= e ->
  0 < shr_m (fst (shr_fexp prec emax m e l)) /\
  snd (shr_fexp prec emax m e l) = Z.max e (fexp prec emax (Zdigits2 m + e)) /\
  Zdigits2 (shr_m (fst (shr_fexp prec emax m e l))) + snd (shr_fexp prec emax m e l)
    = Zdigits2 m + e.
Proof.
  intros Hm He. unfold shr_fexp, shr.
  pose proof (Zdigits2_log2 Hm) as HD.
  pose proof (Z.log2_nonneg m) as Hl.
  destruct (fexp prec emax (Zdigits2 m + e) - e) as [|k|k] eqn:Hn; simpl;
    rewrite ?shr_m_of_loc.
  - repeat split; try assumption; lia.
  - rewrite shr_m_iter by (rewrite shr_m_of_loc; lia).
    rewrite shr_m_of_loc.
    assert (Hk : Z.pos k <= Z.log2 m) by (unfold fexp in Hn; lia).
    assert (Hs : 0 < Z.shiftr m (Z.pos k)).
    { assert (0 <= Z.shiftr m (Z.pos k)) by (apply Z.shiftr_nonneg; lia).
      assert (Z.shiftr m (Z.pos k) <> 0).
      { rewrite Z.shiftr_eq_0_iff. lia. }
      lia. }
    repeat split; try assumption; try lia.
    rewrite (Zdigits2_log2 Hs), Z.log2_shiftr by assumption. lia.
  - repeat split; try assumption; lia.
Qed.

Lemma round_nearest_even_bounds m l :
  m <= round_nearest_even m l <= m + 1.
Proof. destruct l as [|[]]; simpl; try destruct (Z.even m); lia. Qed.

(** Rounding a non-negative mantissa never yields NaN and keeps the sign. *)

Lemma binary_round_aux_signed s m e l :
  0 <= m -> signed s (binary_round_aux prec emax s m e l).
Proof.
  intros Hm. unfold binary_round_aux.
  pose proof (shr_fexp_nonneg e l Hm) as H1.
  destruct (shr_fexp prec emax m e l) as [r1 e1]. simpl in H1.
  pose proof (round_nearest_even_bounds (shr_m r1) (loc_of_shr_record r1)) as Hr.
  set (m2 := round_nearest_even (shr_m r1) (loc_of_shr_record r1)) in *.
  assert (H2 : 0 <= m2) by lia.
  pose proof (shr_fexp_nonneg e1 loc_Exact H2) as H3.
  destruct (shr_fexp prec emax m2 e1 loc_Exact) as [r2 e2]. simpl in H3.
  destruct (shr_m r2) as [|p|p]; simpl; try reflexivity; try lia.
  destruct (e2 <=? emax - prec); reflexivity.
Qed.

(** A positive mantissa with an exponent no less than [emin] does not
    underflow to zero, and it overflows only beyond the stated bound. *)

Lemma binary_round_aux_pos s m e l :
  0 < m -> emin prec emax <= e ->
  positive_result prec emax s (Z.max e (fexp prec emax (Zdigits2 m + e + 1)))
    (binary_round_aux prec emax s m e l).
Proof.
  intros Hm He. unfold binary_round_aux.
  destruct (shr_fexp_pos l Hm He) as (H1 & H1e & H1d).
  destruct (shr_fexp prec emax m e l) as [r1 e1]. simpl in H1, H1e, H1d.
  pose proof (round_nearest_even_bounds (shr_m r1) (loc_of_shr_record r1)) as Hr.
  set (m2 := round_nearest_even (shr_m r1) (loc_of_shr_record r1)) in *.
  assert (H2 : 0 < m2) by lia.
  assert (He1 : emin prec emax <= e1) by lia.
  destruct (shr_fexp_pos loc_Exact H2 He1) as (H3 & H3e & H3d).
  destruct (shr_fexp prec emax m2 e1 loc_Exact) as [r2 e2]. simpl in H3, H3e, H3d.
  assert (HD2 : Zdigits2 m2 <= Zdigits2 (shr_m r1) + 1).
  { rewrite (Zdigits2_log2 H2), (Zdigits2_log2 H1).
    pose proof (Z.log2_le_mono m2 (Z.succ (shr_m r1)) ltac:(lia)).
    pose proof (Z.log2_succ_le (shr_m r1)). lia. }
  destruct (shr_m r2) as [|p|p]; simpl; try lia.
  destruct (e2 <=? emax - prec) eqn:Hle; simpl; [reflexivity|].
  split; [reflexivity|]. apply Z.leb_gt in Hle. unfold fexp in *. lia.
Qed.

End Rounding.

(** * Facts about float64 arithmetic *)

Section Float64Facts.
Local Open Scope Z_scope.

Lemma positive_result_mono prec emax s b b' x :
  b <= b' -> positive_result prec emax s b x -> positive_result prec emax s b' x.
Proof. destruct x; simpl; intuition lia. Qed.

Lemma digits2_pos_iter_xO p d :
  Zpos (digits2_pos (Pos.iter xO p d)) = Zpos (digits2_pos p) + Zpos d.
Proof.
  induction d as [|d IH] using Pos.peano_ind.
  - simpl. lia.
  - rewrite Pos.iter_succ. simpl. lia.
Qed.

Lemma shl_align_spec mx ex ex' :
  let '(mz, ez) := shl_align mx ex ex' in
  (ez = ex \/ ez = ex') /\ ez <= ex /\
  Zpos (digits2_pos mz) + ez = Zpos (digits2_pos mx) + ex.
Proof.
  unfold shl_align. destruct (ex' - ex) as [|d|d] eqn:Hd; try (intuition lia).
  rewrite digits2_pos_iter_xO. intuition lia.
Qed.

Lemma binary_round_signed prec emax s p e :
  signed s (binary_round prec emax s p e).
Proof.
  unfold binary_round. destruct (shl_align _ _ _) as [mz ez].
  apply binary_round_aux_signed. lia.
Qed.

Lemma binary_round_pos prec emax s p e :
  0 < prec -> emin prec emax <= e ->
  positive_result prec emax s
    (Z.max e (fexp prec emax (Zpos (digits2_pos p) + e + 1)))
    (binary_round prec emax s p e).
Proof.
  intros Hprec He. unfold binary_round.
  pose proof (shl_align_spec p e (fexp prec emax (Zpos (digits2_pos p) + e))) as H.
  destruct (shl_align _ _ _) as [mz ez]. destruct H as (Hez & Hle & Hd).
  assert (Hmin : emin prec emax <= ez) by (unfold fexp in Hez; lia).
  eapply positive_result_mono;
    [| apply binary_round_aux_pos; [assumption | lia | assumption]].
  change (Zdigits2 (Z.pos mz)) with (Z.pos (digits2_pos mz)).
  unfold fexp. lia.
Qed.


Lemma signed_nonneg x : signed false x -> nonnegative x.
Proof. destruct x as [s|s| |s m e]; simpl; intros H; subst; try reflexivity; contradiction. Qed.

Lemma of_int_0 : of_int 0 = pos_zero.
Proof. reflexivity. Qed.

Lemma of_int_positive z :
  0 < z -> positive_result prec emax false (Z.max 0 (Z.log2 z - 51)) (of_int z).
Proof.
  intros Hz. destruct z as [|p|p]; try lia.
  unfold of_int, binary_normalize.
  eapply positive_result_mono;
    [| apply binary_round_pos; unfold emin, prec, emax; lia].
  change (Z.pos (digits2_pos p)) with (Zdigits2 (Z.pos p)).
  rewrite (Zdigits2_log2 Hz). unfold fexp, emin, prec, emax.
  pose proof (Z.log2_nonneg (Z.pos p)). lia.
Qed.

Lemma of_int_finite z :
  0 < z < 2 ^ 63 -> exists m e, of_int z = S754_finite false m e.
Proof.
  intros [Hz Hlt]. pose proof (of_int_positive Hz) as H.
  assert (Z.log2 z < 63) by (apply Z.log2_lt_pow2; lia).
  destruct (of_int z) as [s|s| |s m e]; simpl in H; try contradiction.
  - unfold prec, emax in H. lia.
  - subst. eauto.
Qed.

Lemma nonneg_add x y : nonnegative x -> nonnegative y -> nonnegative (add x y).
Proof.
  destruct x as [sx|sx| |sx mx ex], y as [sy|sy| |sy my ey];
    try destruct sx; try destruct sy; unfold nonnegative; simpl; try discriminate;
    try reflexivity; intros _ _.
  apply signed_nonneg. unfold add, SFadd, cond_Zopp. 
  cbv beta iota zeta.
  apply binary_round_signed.
Qed.

Lemma nonneg_square x : isnan x = false -> nonnegative (mul x x).
Proof.
  destruct x as [s|s| |s m e]; simpl; try discriminate; intros _.
  - destruct s; reflexivity.
  - destruct s; reflexivity.
  - apply signed_nonneg. unfold mul, SFmul. rewrite xorb_nilpotent.
    apply binary_round_aux_signed. lia.
Qed.

Lemma nonneg_abs x : isnan x = false -> nonnegative (abs x).
Proof. destruct x; simpl; try discriminate; reflexivity. Qed.

Lemma SFdiv_core_nonneg m1 e1 m2 e2 :
  0 <= m1 -> 0 < m2 ->
  0 <= fst (fst (SFdiv_core_binary prec emax m1 e1 m2 e2)).
Proof.
  intros H1 H2. unfold SFdiv_core_binary.
  set (s := (e1 - e2 - _)%Z).
  set (m' := match s with Z.pos _ => Z.shiftl m1 s | 0 => m1 | Z.neg _ => 0 end).
  assert (Hm' : 0 <= m').
  { subst m'. destruct s; try lia. apply Z.shiftl_nonneg. assumption. }
  pose proof (Z.div_pos m' m2 Hm' H2) as Hq.
  unfold Z.div in Hq. destruct (Z.div_eucl m' m2) as [q r]. exact Hq.
Qed.

Lemma nonneg_div x m e : nonnegative x -> nonnegative (div x (S754_finite false m e)).
Proof.
  destruct x as [sx|sx| |sx mx ex]; try destruct sx; unfold nonnegative; simpl;
    try discriminate; try reflexivity; intros _.
  apply signed_nonneg. unfold div, SFdiv.
  pose proof (@SFdiv_core_nonneg (Z.pos mx) ex (Z.pos m) e ltac:(lia) ltac:(lia)) as H.
  destruct (SFdiv_core_binary prec emax (Z.pos mx) ex (Z.pos m) e) as [[mz ez] lz].
  apply binary_round_aux_signed. exact H.
Qed.

Lemma sub_self x : isfinite x = true -> sub x x = pos_zero.
Proof.
  destruct x as [s|s| |s m e]; simpl; try discriminate; intros _.
  - destruct s; reflexivity.
  - unfold sub, SFsub. rewrite Z.sub_diag.
    reflexivity.
Qed.

Lemma add_zero_zero : add pos_zero pos_zero = pos_zero.
Proof. reflexivity. Qed.

Lemma div_zero_positive b y :
  positive_result prec emax false b y -> div pos_zero y = pos_zero.
Proof.
  destruct y as [s|s| |s m e]; simpl; try contradiction.
  - intros [-> _]. reflexivity.
  - intros ->. reflexivity.
Qed.

End Float64Facts.

(** * Facts about the NumPy reductions *)

Section NumpyFacts.
Context {F : Type} {AF : Arith F}.

(** A property of the identity that addition preserves holds of every sum,
    in whatever order the elements are added. *)
Section Closed.
Variable P : F -> Prop.
Hypothesis P_add : forall a b, P a -> P b -> P (f_add a b).

Lemma fold_left_closed a : forall x, P x -> Forall P a -> P (fold_left f_add a x).
Proof.
  induction a as [|y a IH]; intros x Hx Ha; simpl; [assumption|].
  inversion Ha; subst. apply IH; auto.
Qed.

Lemma acc8_combine_closed r : all8 P r -> P (acc8_combine r).
Proof.
  destruct r as [[[[[[[r0 r1] r2] r3] r4] r5] r6] r7]. simpl.
  intros (H0 & H1 & H2 & H3 & H4 & H5 & H6 & H7). auto 10.
Qed.

Ltac inv_Forall :=
  repeat match goal with
         | H : Forall _ (_ :: _) |- _ => inversion H; clear H; subst
         end.

Lemma acc8_loop_closed a : forall r, all8 P r -> Forall P a -> P (acc8_loop r a).
Proof.
  induction a as [a IH] using (induction_ltof1 _ (@length F)).
  intros r Hr Ha.
  destruct a as [|a0 [|a1 [|a2 [|a3 [|a4 [|a5 [|a6 [|a7 rest]]]]]]]];
    try (apply fold_left_closed; [apply acc8_combine_closed|]; assumption).
  destruct r as [[[[[[[r0 r1] r2] r3] r4] r5] r6] r7].
  destruct Hr as (H0 & H1 & H2 & H3 & H4 & H5 & H6 & H7).
  inv_Forall. cbn [acc8_loop]. apply IH.
  - unfold ltof. simpl. lia.
  - simpl. auto 10.
  - assumption.
Qed.

Lemma block_sum_closed a : P (f_of_int 0) -> Forall P a -> P (block_sum a).
Proof.
  intros H0 Ha.
  destruct a as [|a0 [|a1 [|a2 [|a3 [|a4 [|a5 [|a6 [|a7 rest]]]]]]]];
    try (apply fold_left_closed; assumption).
  inv_Forall. cbn [block_sum]. apply acc8_loop_closed; simpl; auto 10.
Qed.

Lemma pairwise_sum_closed a : P (f_of_int 0) -> Forall P a -> P (pairwise_sum a).
Proof.
  intros H0. funelim (pairwise_sum a); intros Ha.
  - now apply block_sum_closed.
  - rewrite <- (firstn_skipn (split_point (length a)) a) in Ha.
    apply Forall_app in Ha. destruct Ha as [Ha1 Ha2].
    apply P_add; auto.
Qed.

Lemma np_sum_closed a : P (f_of_int 0) -> Forall P a -> P (np_sum a).
Proof.
  intros H0 Ha. unfold np_sum. apply P_add; [assumption|].
  now apply pairwise_sum_closed.
Qed.

End Closed.

(** Subtraction of arrays of one length is elementwise, position by
    position. *)
Lemma combine_by_index (g : F -> F -> F) (d : F) (a : list F) :
  forall b, length a = length b ->
  map (fun p => g (fst p) (snd p)) (combine a b) =
  map (fun i => g (nth i a d) (nth i b d)) (seq 0 (length a)).
Proof.
  induction a as [|x a IH]; intros [|y b] Hlen; simpl in *; try discriminate;
    [reflexivity|].
  f_equal. rewrite <- seq_shift, map_map. apply IH. lia.
Qed.

Lemma map_by_index (g : F -> F) (d : F) (a : list F) :
  map g a = map (fun i => g (nth i a d)) (seq 0 (length a)).
Proof.
  induction a as [|x a IH]; simpl; [reflexivity|].
  f_equal. rewrite <- seq_shift, map_map. exact IH.
Qed.

Lemma np_subtract_same_length (a b : list F) :
  length a = length b ->
  np_subtract a b = Return (map (fun p => f_sub (fst p) (snd p)) (combine a b)).
Proof. intros H. unfold np_subtract. rewrite H, Nat.eqb_refl. reflexivity. Qed.

Lemma np_subtract_length (a b d : list F) :
  length a = length b -> np_subtract a b = Return d -> length d = length a.
Proof.
  intros H. rewrite np_subtract_same_length by assumption.
  intros [= <-]. rewrite length_map, length_combine. lia.
Qed.

End NumpyFacts.

(** * The reductions in exact arithmetic *)

Section ExactFacts.
Local Open Scope R_scope.

Lemma Rsum_app a b : Rsum (a ++ b) = Rsum a + Rsum b.
Proof. induction a as [|x a IH]; simpl; [lra|]. rewrite IH. lra. Qed.

Lemma fold_left_Rsum a : forall x, fold_left Rplus a x = x + Rsum a.
Proof.
  induction a as [|y a IH]; intros x; simpl; [lra|]. rewrite IH. lra.
Qed.

Lemma acc8_loop_Rsum (a : list R) : forall r,
  acc8_loop r a = acc8_combine r + Rsum a.
Proof.
  induction a as [a IH] using (induction_ltof1 _ (@length R)).
  intros r.
  destruct a as [|a0 [|a1 [|a2 [|a3 [|a4 [|a5 [|a6 [|a7 rest]]]]]]]];
    try (cbn [acc8_loop]; apply (fold_left_Rsum _ (acc8_combine r))).
  destruct r as [[[[[[[r0 r1] r2] r3] r4] r5] r6] r7].
  cbn [acc8_loop]. rewrite IH by (unfold ltof; simpl; lia).
  simpl. lra.
Qed.

Lemma block_sum_Rsum (a : list R) : block_sum a = Rsum a.
Proof.
  destruct a as [|a0 [|a1 [|a2 [|a3 [|a4 [|a5 [|a6 [|a7 rest]]]]]]]];
    try (cbn [block_sum]; rewrite (fold_left_Rsum _ (f_of_int 0)); simpl; lra).
  cbn [block_sum]. rewrite acc8_loop_Rsum. simpl. lra.
Qed.

Lemma pairwise_sum_Rsum (a : list R) : pairwise_sum a = Rsum a.
Proof.
  funelim (pairwise_sum a).
  - apply block_sum_Rsum.
  - rewrite H, H0. simpl f_add. rewrite <- Rsum_app, firstn_skipn. reflexivity.
Qed.

Lemma np_sum_Rsum (a : list R) : np_sum a = Rsum a.
Proof. unfold np_sum. rewrite pairwise_sum_Rsum. simpl. lra. Qed.

Lemma np_mean_Rsum (a : list R) :
  np_mean a = Rsum a / INR (length a).
Proof. unfold np_mean. rewrite np_sum_Rsum, INR_IZR_INZ. reflexivity. Qed.

(** Cauchy-Schwarz for a list against the constant one. *)
Lemma Rsum_shift_sq (a : list R) (c : R) :
  Rsum (map (fun x => (Rabs x - c) * (Rabs x - c)) a) =
  Rsum (map (fun x => x * x) a) - 2 * c * Rsum (map Rabs a)
  + INR (length a) * (c * c).
Proof.
  induction a as [|x a IH].
  - simpl. lra.
  - cbn [map Rsum fold_right length]. fold (Rsum (map (fun x => (Rabs x - c) * (Rabs x - c)) a)).
    fold (Rsum (map (fun x => x * x) a)). fold (Rsum (map Rabs a)).
    rewrite IH, S_INR.
    assert (Rabs x * Rabs x = x * x).
    { unfold Rabs. destruct (Rcase_abs x); lra. }
    nra.
Qed.

Lemma Rsum_sq_nonneg (f : R -> R) (a : list R) :
  0 <= Rsum (map (fun x => f x * f x) a).
Proof.
  induction a as [|x a IH]; simpl; [lra|].
  fold (Rsum (map (fun x => f x * f x) a)). nra.
Qed.

Lemma Rsum_abs_nonneg (a : list R) : 0 <= Rsum (map Rabs a).
Proof.
  induction a as [|x a IH]; simpl; [lra|].
  fold (Rsum (map Rabs a)). pose proof (Rabs_pos x). lra.
Qed.

Lemma sum_abs_sq_le (a : list R) :
  Rsum (map Rabs a) * Rsum (map Rabs a)
  <= INR (length a) * Rsum (map (fun x => x * x) a).
Proof.
  induction a as [|x a IH].
  - simpl. lra.
  - cbn [map Rsum fold_right length].
    fold (Rsum (map (fun x => x * x) a)). fold (Rsum (map Rabs a)).
    rewrite S_INR.
    pose proof (Rsum_sq_nonneg (fun y => Rabs y - Rabs x) a) as Hs.
    cbv beta in Hs.
    rewrite (Rsum_shift_sq a (Rabs x)) in Hs.
    assert (Hx : x * x = Rabs x * Rabs x).
    { unfold Rabs. destruct (Rcase_abs x); lra. }
    rewrite Hx.
    generalize dependent (Rsum (map (fun x => x * x) a)).
    generalize dependent (Rsum (map Rabs a)).
    generalize (INR (length a)) (Rabs x).
    intros n ax s1 s2 IH Hs. lra.
Qed.

Lemma mean_abs_le_root_mean_sq (a : list R) :
  (1 <= length a)%nat ->
  Rsum (map Rabs a) / INR (length a)
  <= R_sqrt.sqrt (Rsum (map (fun x => x * x) a) / INR (length a)).
Proof.
  intros Hn.
  assert (Hpos : 0 < INR (length a)) by (apply lt_0_INR; lia).
  pose proof (Rsum_abs_nonneg a) as Hs.
  pose proof (sum_abs_sq_le a) as Hcs.
  set (n := INR (length a)) in *.
  set (s1 := Rsum (map Rabs a)) in *.
  set (s2 := Rsum (map (fun x => x * x) a)) in *.
  assert (H0 : 0 <= s1 / n) by (apply Rmult_le_pos; [lra | apply Rlt_le, Rinv_0_lt_compat; lra]).
  rewrite <- (sqrt_square (s1 / n)) by assumption.
  apply sqrt_le_1_alt.
  unfold Rdiv. 
  assert (Hinv : 0 < / n) by (apply Rinv_0_lt_compat; lra).
  assert (Hn1 : n * / n = 1) by (apply Rinv_r; lra).
  replace (s1 * / n * (s1 * / n)) with ((s1 * s1) * (/ n * / n)) by ring.
  replace (s2 * / n) with ((n * s2) * (/ n * / n)) by (rewrite <- Rmult_assoc, (Rmult_comm n s2), !Rmult_assoc, <- (Rmult_assoc n), Hn1; ring).
  apply Rmult_le_compat_r; [nra | assumption].
Qed.

End ExactFacts.

(** * Sums and reductions as combinations of their terms *)

Section Combinations.
Context {F : Type}.
Variable op : F -> F -> F.
Variable unit : option F.

Lemma combines_eq (l l' : list F) (v : F) :
  l = l' -> combines op unit l v -> combines op unit l' v.
Proof. intros ->. exact (fun H => H). Qed.

Lemma fold_left_combines (a : list F) : forall l0 x,
  combines op unit l0 x -> combines op unit (l0 ++ a) (fold_left op a x).
Proof.
  induction a as [|y a IH]; intros l0 x H; simpl.
  - now rewrite app_nil_r.
  - apply combines_eq with (l := (l0 ++ [y]) ++ a).
    + now rewrite <- app_assoc.
    + apply IH. apply combines_op; [assumption | constructor].
Qed.

Lemma perm_snoc_concat (ls : list (list F)) : forall xs,
  length ls = length xs ->
  Permutation (concat (map (fun p => fst p ++ [snd p]) (combine ls xs)))
              (concat ls ++ xs).
Proof.
  induction ls as [|l ls IH]; intros [|x xs] Hlen; simpl in *; try discriminate.
  - constructor.
  - injection Hlen as Hlen. rewrite <- !app_assoc. apply Permutation_app_head.
    simpl. etransitivity; [|apply Permutation_middle].
    apply perm_skip. now apply IH.
Qed.

Lemma combine8_combines (l0 l1 l2 l3 l4 l5 l6 l7 : list F)
  (m0 m1 m2 m3 m4 m5 m6 m7 : F) :
  Forall2 (combines op unit) [l0; l1; l2; l3; l4; l5; l6; l7]
                             [m0; m1; m2; m3; m4; m5; m6; m7] ->
  combines op unit (concat [l0; l1; l2; l3; l4; l5; l6; l7])
    (combine8 op (m0, m1, m2, m3, m4, m5, m6, m7)).
Proof.
  intros H.
  repeat match goal with
         | H : Forall2 _ (_ :: _) (_ :: _) |- _ => inversion H; clear H; subst
         end.
  apply combines_eq
    with (l := ((l0 ++ l1) ++ (l2 ++ l3)) ++ ((l4 ++ l5) ++ (l6 ++ l7))).
  - simpl. rewrite app_nil_r, <- !app_assoc. reflexivity.
  - unfold combine8. repeat apply combines_op; assumption.
Qed.

Lemma gather8_combines (a : list F) :
  forall (l0 l1 l2 l3 l4 l5 l6 l7 : list F) (m0 m1 m2 m3 m4 m5 m6 m7 : F),
  Forall2 (combines op unit) [l0; l1; l2; l3; l4; l5; l6; l7]
                             [m0; m1; m2; m3; m4; m5; m6; m7] ->
  exists used,
    combines op unit used (fst (gather8 op (m0, m1, m2, m3, m4, m5, m6, m7) a)) /\
    Permutation (used ++ snd (gather8 op (m0, m1, m2, m3, m4, m5, m6, m7) a))
                (concat [l0; l1; l2; l3; l4; l5; l6; l7] ++ a).
Proof.
  induction a as [a IH] using (induction_ltof1 _ (@length F)).
  intros l0 l1 l2 l3 l4 l5 l6 l7 m0 m1 m2 m3 m4 m5 m6 m7 H.
  destruct a as [|a0 [|a1 [|a2 [|a3 [|a4 [|a5 [|a6 [|a7 rest]]]]]]]];
    try (eexists; split; [apply combine8_combines; eassumption | reflexivity]).
  cbn [gather8].
  destruct (IH rest ltac:(unfold ltof; simpl; lia)
              (l0 ++ [a0]) (l1 ++ [a1]) (l2 ++ [a2]) (l3 ++ [a3])
              (l4 ++ [a4]) (l5 ++ [a5]) (l6 ++ [a6]) (l7 ++ [a7])
              (op m0 a0) (op m1 a1) (op m2 a2) (op m3 a3)
              (op m4 a4) (op m5 a5) (op m6 a6) (op m7 a7))
    as (used & Hused & Hperm).
  { repeat match goal with
           | H : Forall2 _ (_ :: _) (_ :: _) |- _ => inversion H; clear H; subst
           end.
    repeat (constructor; [apply combines_op; [assumption | constructor]|]).
    constructor. }
  exists used. split; [exact Hused|].
  etransitivity; [exact Hperm|].
  pose proof (@perm_snoc_concat [l0; l1; l2; l3; l4; l5; l6; l7]
                [a0; a1; a2; a3; a4; a5; a6; a7] eq_refl) as Hp.
  cbn [combine map fst snd] in Hp.
  apply (Permutation_app_tail rest) in Hp.
  etransitivity; [exact Hp|].
  rewrite <- app_assoc. reflexivity.
Qed.

(** The reduction after the first element combines all the elements. *)
Lemma reduce_from_combines (acc : F) (rest : list F) :
  combines op unit (acc :: rest) (reduce_from op acc rest).
Proof.
  unfold reduce_from.
  destruct rest as [|a0 [|a1 [|a2 [|a3 [|a4 [|a5 [|a6 [|a7 tail]]]]]]]];
    try (apply (@fold_left_combines _ [acc] acc); constructor).
  destruct (@gather8_combines tail [a0] [a1] [a2] [a3] [a4] [a5] [a6] [a7]
              a0 a1 a2 a3 a4 a5 a6 a7) as (used & Hused & Hperm).
  { repeat (constructor; [constructor|]). constructor. }
  destruct (gather8 op (a0, a1, a2, a3, a4, a5, a6, a7) tail) as [c tail'].
  cbn [fst snd] in *.
  apply combines_perm with (l := ([acc] ++ used) ++ tail').
  - rewrite <- app_assoc. simpl. apply perm_skip. exact Hperm.
  - apply fold_left_combines. apply combines_op; [constructor | assumption].
Qed.

(** A property of the unit that [op] preserves holds of every
    combination of terms that have it. *)
Lemma combines_closed (P : F -> Prop) (l : list F) (v : F) :
  (forall e, unit = Some e -> P e) ->
  (forall a b, P a -> P b -> P (op a b)) ->
  combines op unit l v -> Forall P l -> P v.
Proof.
  intros Hunit Hop H. induction H as [e He|x|l1 l2 v1 v2 _ IH1 _ IH2|l l' v Hp _ IH];
    intros Hl.
  - now apply Hunit.
  - now inversion Hl.
  - apply Forall_app in Hl. destruct Hl. auto.
  - apply IH. eapply Permutation_Forall; [symmetry; eassumption | assumption].
Qed.

End Combinations.

Section SumFacts.
Context {F : Type} {AF : Arith F}.

Lemma acc8_loop_gather (a : list F) : forall r,
  acc8_loop r a = fold_left f_add (snd (gather8 f_add r a)) (fst (gather8 f_add r a)).
Proof.
  induction a as [a IH] using (induction_ltof1 _ (@length F)).
  intros r.
  destruct a as [|a0 [|a1 [|a2 [|a3 [|a4 [|a5 [|a6 [|a7 rest]]]]]]]];
    try (destruct r as [[[[[[[r0 r1] r2] r3] r4] r5] r6] r7]; reflexivity).
  destruct r as [[[[[[[r0 r1] r2] r3] r4] r5] r6] r7].
  cbn [acc8_loop gather8]. apply IH. unfold ltof. simpl. lia.
Qed.

Lemma block_sum_sums (a : list F) : sums_to a (block_sum a).
Proof.
  unfold sums_to.
  destruct a as [|a0 [|a1 [|a2 [|a3 [|a4 [|a5 [|a6 [|a7 rest]]]]]]]];
    try (apply (@fold_left_combines _ f_add _ _ [] (f_of_int 0));
         now constructor).
  cbn [block_sum]. rewrite acc8_loop_gather.
  destruct (@gather8_combines _ f_add (Some (f_of_int 0)) rest
              [a0] [a1] [a2] [a3] [a4] [a5] [a6] [a7]
              a0 a1 a2 a3 a4 a5 a6 a7) as (used & Hused & Hperm).
  { repeat (constructor; [constructor|]). constructor. }
  destruct (gather8 f_add (a0, a1, a2, a3, a4, a5, a6, a7) rest) as [c tail].
  cbn [fst snd] in *.
  apply combines_perm with (l := used ++ tail); [exact Hperm|].
  now apply fold_left_combines.
Qed.

Lemma pairwise_sum_sums (a : list F) : sums_to a (pairwise_sum a).
Proof.
  funelim (pairwise_sum a).
  - apply block_sum_sums.
  - unfold sums_to in *.
    apply combines_eq
      with (l := firstn (split_point (length a)) a ++ skipn (split_point (length a)) a).
    + apply firstn_skipn.
    + now apply combines_op.
Qed.

(** [np.sum] adds every element exactly once. *)
Lemma np_sum_sums (a : list F) : sums_to a (np_sum a).
Proof.
  unfold np_sum, sums_to.
  apply (@combines_op _ f_add (Some (f_of_int 0)) [] a).
  - now constructor.
  - apply pairwise_sum_sums.
Qed.

End SumFacts.

Section ExactSums.
Local Open Scope R_scope.

Lemma Rsum_permutation (l l' : list R) : Permutation l l' -> Rsum l = Rsum l'.
Proof.
  induction 1 as [|x l l' _ IH|x y l|l l' l'' _ IH1 _ IH2]; simpl;
    try fold (Rsum l); try fold (Rsum l'); try lra.
Qed.

(** In exact arithmetic a sum of the terms is the sum of the terms. *)
Lemma sums_to_exact (l : list R) (v : R) : sums_to l v -> v = Rsum l.
Proof.
  unfold sums_to. induction 1 as [e He|x|l1 l2 v1 v2 _ IH1 _ IH2|l l' v Hp _ IH].
  - injection He as <-. reflexivity.
  - simpl. lra.
  - rewrite Rsum_app. simpl f_add. lra.
  - rewrite IH. now apply Rsum_permutation.
Qed.

End ExactSums.

(** * Facts about the metrics *)

Section MetricFacts.
Context {F : Type} {AF : Arith F}.

Lemma np_subtract_by_index (a b : list F) :
  length a = length b ->
  np_subtract a b =
  Return (map (fun i => f_sub (at_index a i) (at_index b i)) (seq 0 (length a))).
Proof.
  intros H. rewrite np_subtract_same_length by assumption. f_equal.
  apply (combine_by_index f_sub). assumption.
Qed.

Lemma index_all (a : list F) : map (at_index a) (seq 0 (length a)) = a.
Proof.
  unfold at_index. rewrite <- (map_by_index (fun x => x)). apply map_id.
Qed.

(** The array [(a - b) ** 2] holds the squared differences, by index. *)
Lemma squares_by_index (a b : list F) :
  length a = length b ->
  np_square (map (fun p => f_sub (fst p) (snd p)) (combine a b)) =
  terms_over (length a)
    (fun i => squared_difference (at_index a i) (at_index b i)).
Proof.
  intros H. unfold np_square, terms_over, squared_difference, at_index.
  rewrite (combine_by_index f_sub (f_of_int 0) a b H), map_map. reflexivity.
Qed.

(** The array [(a - m) ** 2] for a scalar [m], by index. *)
Lemma squares_about_by_index (a : list F) (m : F) :
  np_square (np_subtract_scalar a m) =
  terms_over (length a) (fun i => squared_difference (at_index a i) m).
Proof.
  unfold np_square, np_subtract_scalar, terms_over, squared_difference, at_index.
  rewrite map_map.
  apply (map_by_index (fun x => f_mul (f_sub x m) (f_sub x m)) (f_of_int 0)).
Qed.

Lemma np_sum_terms (a : list F) :
  sums_to (terms_over (length a) (at_index a)) (np_sum a).
Proof. unfold terms_over. rewrite index_all. apply np_sum_sums. Qed.

Lemma ss_res_terms (a b : list F) :
  length a = length b ->
  exists v,
    ss_res a b = Return v /\
    sums_to (terms_over (length a)
               (fun i => squared_difference (at_index a i) (at_index b i))) v.
Proof.
  intros H. unfold ss_res. rewrite np_subtract_same_length by assumption.
  cbn [bind]. eexists. split; [reflexivity|].
  rewrite <- squares_by_index by assumption. apply np_sum_sums.
Qed.

Lemma ss_tot_terms (a : list F) :
  sums_to (terms_over (length a)
             (fun i => squared_difference (at_index a i) (np_mean a)))
          (ss_tot a).
Proof.
  unfold ss_tot. rewrite <- squares_about_by_index. apply np_sum_sums.
Qed.

End MetricFacts.
(** * The metrics on float64 data *)

Section Float64Metrics.

Lemma count_positive (n : nat) :
  1 <= n ->
  positive_result prec emax false (Z.max 0 (Z.log2 (Z.of_nat n) - 51))
    (of_int (Z.of_nat n)).
Proof. intros H. apply of_int_positive. lia. Qed.

Lemma np_sum_zeros (a : list float64) :
  Forall (fun x => x = pos_zero) a -> np_sum a = pos_zero.
Proof.
  intros H. apply np_sum_closed with (P := fun x => x = pos_zero); try assumption.
  - intros x y -> ->. reflexivity.
  - reflexivity.
Qed.

Lemma np_mean_zeros (a : list float64) :
  1 <= length a -> Forall (fun x => x = pos_zero) a -> np_mean a = pos_zero.
Proof.
  intros Hn H. unfold np_mean. rewrite np_sum_zeros by assumption.
  eapply div_zero_positive. exact (count_positive Hn).
Qed.

Lemma sub_self_zeros (y : list float64) :
  Forall (fun x => isfinite x = true) y ->
  Forall (fun x => x = pos_zero)
    (map (fun p => f_sub (fst p) (snd p)) (combine y y)).
Proof.
  induction 1 as [|x y Hx Hy IH]; simpl; constructor; [|assumption].
  now apply sub_self.
Qed.

Lemma np_sum_nonneg (a : list float64) : Forall nonnegative a -> nonnegative (np_sum a).
Proof.
  intros H. apply np_sum_closed with (P := nonnegative); try assumption.
  - apply nonneg_add.
  - reflexivity.
Qed.

Lemma np_mean_nonneg (a : list float64) :
  1 <= length a -> (Z.of_nat (length a) < 2 ^ 63)%Z ->
  Forall nonnegative a -> nonnegative (np_mean a).
Proof.
  intros Hn Hb H. unfold np_mean.
  destruct (@of_int_finite (Z.of_nat (length a)) ltac:(lia)) as (m & e & Hc).
  simpl f_of_int. rewrite Hc. apply nonneg_div. now apply np_sum_nonneg.
Qed.


Lemma binary_normalize_not_nan m e :
  isnan (binary_normalize prec emax m e false) = false.
Proof.
  destruct m as [|p|p]; simpl; [reflexivity| |].
  - pose proof (binary_round_signed prec emax false p e) as H.
    destruct (binary_round prec emax false p e); simpl in *;
      try reflexivity; contradiction.
  - pose proof (binary_round_signed prec emax true p e) as H.
    destruct (binary_round prec emax true p e); simpl in *;
      try reflexivity; contradiction.
Qed.

(** The difference of two finite floats may overflow, but it is a number. *)
Lemma finite_difference_not_nan x y :
  isfinite x = true -> isfinite y = true -> isnan (Float64.sub x y) = false.
Proof.
  destruct x as [sx|sx| |sx mx ex], y as [sy|sy| |sy my ey]; simpl;
    try discriminate; intros _ _; try (destruct sx, sy; reflexivity).
  apply binary_normalize_not_nan.
Qed.

End Float64Metrics.

(** * The metrics in exact arithmetic *)

Section ExactMetrics.
Local Open Scope R_scope.

Lemma exact_mse (yTrue yPred : list R) :
  length yTrue = length yPred ->
  mean_squared_error yTrue yPred =
  Return (Rsum (map (fun x => x * x)
                  (map (fun p => fst p - snd p) (combine yTrue yPred)))
          / INR (length yTrue)).
Proof.
  intros H. unfold mean_squared_error.
  rewrite np_subtract_same_length by assumption. cbn [bind].
  rewrite np_mean_Rsum. unfold np_square.
  rewrite !length_map, length_combine, <- H, Nat.min_id. reflexivity.
Qed.

Lemma exact_mae (yTrue yPred : list R) :
  length yTrue = length yPred ->
  mean_absolute_error yTrue yPred =
  Return (Rsum (map Rabs (map (fun p => fst p - snd p) (combine yTrue yPred)))
          / INR (length yTrue)).
Proof.
  intros H. unfold mean_absolute_error.
  rewrite np_subtract_same_length by assumption. cbn [bind].
  rewrite np_mean_Rsum. unfold np_abs.
  rewrite !length_map, length_combine, <- H, Nat.min_id. reflexivity.
Qed.

End ExactMetrics.

(** * Facts about the loader and the consistency check *)

Section LoaderFacts.
Context {F : Type}.

Lemma skip_blank_nonblank (first : list F) (others : list (list F)) :
  first <> [] -> skip_blank (first :: others) = first :: others.
Proof. destruct first; [contradiction | reflexivity]. Qed.

Lemma skip_blank_all_blank (rows : list (list F)) :
  rectangular 0 rows -> skip_blank rows = [].
Proof.
  induction 1 as [|row rows Hrow _ IH]; [reflexivity|].
  destruct row; [exact IH | discriminate].
Qed.

Lemma scan_lines_rectangular (c : nat) (rows : list (list F)) :
  c <> 0 -> rectangular c rows -> forall i, scan_lines c i rows = (rows, []).
Proof.
  intros Hc. induction 1 as [|row rows Hrow _ IH]; intros i; [reflexivity|].
  cbn [scan_lines]. rewrite IH.
  destruct row as [|x row]; [simpl in Hrow; congruence|].
  rewrite Hrow, Nat.eqb_refl. reflexivity.
Qed.

Lemma scan_lines_invalid (c : nat) (rows : list (list F)) : forall i,
  snd (scan_lines c i rows) =
  filter (fun bad => negb (Nat.eqb (snd bad) 0) && negb (Nat.eqb (snd bad) c))
         (combine (seq i (length rows)) (map (@length F) rows)).
Proof.
  induction rows as [|line rows IH]; intros i; [reflexivity|].
  cbn [scan_lines length seq map combine filter snd]. specialize (IH (S i)).
  destruct (scan_lines c (S i) rows) as [kept invalid]. cbn [snd] in IH.
  destruct line as [|x line]; [exact IH|].
  change (negb (Nat.eqb (length (x :: line)) 0)) with true. cbn [andb].
  destruct (Nat.eqb (length (x :: line)) c); cbn [negb snd]; [exact IH|].
  now rewrite IH.
Qed.

Lemma bad_line_numbered (c : nat) (row : list F) (rows : list (list F)) :
  In row rows -> row <> [] -> length row <> c ->
  numbered_bad_lines c rows <> [].
Proof.
  unfold numbered_bad_lines. generalize 2.
  induction rows as [|line rows IH]; intros i Hin Hne Hlen; [contradiction|].
  cbn [length seq map combine filter snd].
  destruct (negb (Nat.eqb (length line) 0) && negb (Nat.eqb (length line) c))
    eqn:Hbad; [discriminate|].
  destruct Hin as [->|Hin]; [|now apply IH].
  exfalso. apply andb_false_iff in Hbad.
  destruct Hbad as [Hbad|Hbad]; apply negb_false_iff, Nat.eqb_eq in Hbad.
  - destruct row; [contradiction | discriminate].
  - contradiction.
Qed.

Lemma genfromtxt_rectangular (fs : filesystem F) f c first others :
  fs f = Some (first :: others) -> rectangular c (first :: others) ->
  c <> 0 ->
  genfromtxt fs f = Return (squeeze (Arr2 (S (length others)) c (first :: others))).
Proof.
  intros Hfs Hrect Hc. inversion Hrect as [|? ? Hfirst Hothers]; subst.
  unfold genfromtxt. rewrite Hfs, skip_blank_nonblank.
  - cbv zeta. rewrite scan_lines_rectangular by assumption. reflexivity.
  - intros ->. now apply Hc.
Qed.

Lemma genfromtxt_ragged (fs : filesystem F) f first others :
  fs f = Some (first :: others) -> first <> [] ->
  numbered_bad_lines (length first) others <> [] ->
  genfromtxt fs f =
    Raise (ValueError (genfromtxt_msg (length first)
                         (numbered_bad_lines (length first) others))).
Proof.
  intros Hfs Hfirst Hbad. unfold genfromtxt.
  rewrite Hfs, skip_blank_nonblank by assumption. cbv zeta.
  pose proof (scan_lines_invalid (length first) others 2) as Hinv.
  fold (numbered_bad_lines (length first) others) in Hinv.
  destruct (scan_lines (length first) 2 others) as [kept invalid].
  cbn [snd] in Hinv. subst invalid.
  destruct (numbered_bad_lines (length first) others); [contradiction|reflexivity].
Qed.

Lemma load_data_two_columns (fs : filesystem F) f rows :
  fs f = Some rows -> two_column_rows rows ->
  exists a, load_data fs f = ([], Return a) /\
    shape a = if Nat.eqb (length rows) 1 then [2] else [2; length rows].
Proof.
  intros Hfs [Hne Hall].
  destruct rows as [|first others]; [contradiction|].
  unfold load_data, load_data_try.
  rewrite (@genfromtxt_rectangular fs f 2 first others Hfs Hall) by discriminate.
  inversion Hall as [|? ? Hfirst Hothers]; subst.
  destruct others as [|second rest].
  - destruct first as [|x [|y [|z first]]]; try discriminate.
    simpl. eexists. split; reflexivity.
  - simpl. eexists. split; reflexivity.
Qed.

Lemma check_same_shape (a b : ndarray F) :
  shape a = shape b -> check_data_consistency a b = Return tt.
Proof.
  intros H. unfold check_data_consistency.
  destruct (list_eq_dec Nat.eq_dec (shape a) (shape b)); [reflexivity|contradiction].
Qed.

Lemma check_different_shape (a b : ndarray F) :
  shape a <> shape b ->
  check_data_consistency a b = Raise (ValueError same_shape_msg).
Proof.
  intros H. unfold check_data_consistency.
  destruct (list_eq_dec Nat.eq_dec (shape a) (shape b)); [contradiction|reflexivity].
Qed.

Lemma rectangular_concat (c : nat) (rows : list (list F)) :
  rectangular c rows -> length (concat rows) = length rows * c.
Proof.
  induction 1 as [|row rows Hrow _ IH]; simpl; [reflexivity|].
  rewrite length_app, IH, Hrow. reflexivity.
Qed.

Lemma column_points (pts : list (F * F)) :
  column 0 (map point_row pts) = map fst pts /\
  column 1 (map point_row pts) = map snd pts.
Proof.
  unfold column. split; induction pts as [|p pts IH]; simpl;
    try reflexivity; f_equal; exact IH.
Qed.

Lemma load_data_points (fs : filesystem F) f (pts : list (F * F)) :
  fs f = Some (map point_row pts) -> 2 <= length pts ->
  load_data fs f =
    ([], Return (Arr2 2 (length pts) [map fst pts; map snd pts])).
Proof.
  intros Hfs Hn.
  destruct pts as [|p [|q pts]]; simpl in Hn; try lia.
  unfold load_data, load_data_try.
  rewrite (@genfromtxt_rectangular fs f 2 (point_row p) (map point_row (q :: pts))).
  - destruct (column_points (p :: q :: pts)) as [H0 H1].
    cbn [bind squeeze Nat.eqb length map transpose seq shape tuple_item nth_error negb].
    rewrite length_map.
    cbn [bind squeeze Nat.eqb length map transpose seq shape tuple_item nth_error negb].
    change (point_row p :: point_row q :: map point_row pts)
      with (map point_row (p :: q :: pts)).
    rewrite H0, H1. reflexivity.
  - exact Hfs.
  - unfold rectangular. apply Forall_forall. intros row Hin.
    change (point_row p :: map point_row (q :: pts))
      with (map point_row (p :: q :: pts)) in Hin.
    apply in_map_iff in Hin. destruct Hin as (pt & <- & _). reflexivity.
  - discriminate.
Qed.

Lemma load_data_of_try_shape (fs : filesystem F) f (a : ndarray F) n :
  genfromtxt fs f = Return a ->
  tuple_item (shape (transpose a)) 0 = Return n -> n <> 2 ->
  load_data fs f = (["Error: " ++ two_columns_msg f]%string, Raise (SystemExit 1)).
Proof.
  intros Hg Ht Hn. unfold load_data, load_data_try. rewrite Hg. cbn [bind].
  rewrite Ht. cbn [bind].
  destruct (Nat.eqb_spec n 2); [contradiction|]. reflexivity.
Qed.

End LoaderFacts.

(** * Facts about broadcasting and the symmetry of the differences *)

Section BroadcastFacts.
Context {F : Type} {AF : Arith F}.

Lemma np_subtract_not_broadcastable (a b : list F) :
  length a <> length b -> length a <> 1 -> length b <> 1 ->
  np_subtract a b = Raise (ValueError (broadcast_msg (length a) (length b))).
Proof.
  intros Hab Ha Hb. unfold np_subtract.
  destruct (Nat.eqb_spec (length a) (length b)); [contradiction|].
  destruct a as [|x [|x' a]], b as [|y [|y' b]]; simpl in *;
    try reflexivity; try contradiction; try lia.
Qed.

End BroadcastFacts.

Section SymmetryFacts.
Local Open Scope Z_scope.






End SymmetryFacts.

Section SymmetryLists.





End SymmetryLists.

(** * Facts about the square root *)

Section SqrtFacts.
Local Open Scope Z_scope.

Lemma SFsqrt_core_nonneg m e :
  0 <= m -> 0 <= fst (fst (SFsqrt_core_binary prec emax m e)).
Proof.
  intros Hm. unfold SFsqrt_core_binary.
  set (s := e - 2 * _).
  set (m' := match s with Z.pos _ => Z.shiftl m s | 0 => m | Z.neg _ => 0 end).
  assert (Hm' : 0 <= m').
  { subst m'. destruct s; try lia. apply Z.shiftl_nonneg. assumption. }
  pose proof (Z.sqrtrem_spec m' Hm') as Hs.
  destruct (Z.sqrtrem m') as [q r]. simpl. lia.
Qed.

Lemma nonneg_sqrt x : nonnegative x -> nonnegative (Float64.sqrt x).
Proof.
  destruct x as [s|s| |s m e]; try destruct s; unfold nonnegative; simpl;
    try discriminate; try reflexivity; intros _.
  apply signed_nonneg. unfold Float64.sqrt, SFsqrt.
  pose proof (@SFsqrt_core_nonneg (Z.pos m) e ltac:(lia)) as H.
  destruct (SFsqrt_core_binary prec emax (Z.pos m) e) as [[mz ez] lz].
  apply binary_round_aux_signed. exact H.
Qed.

End SqrtFacts.

(** * More on the metrics in exact arithmetic *)

Section ExactMore.
Local Open Scope R_scope.

Lemma Rsum_squares_nonneg (d : list R) : 0 <= Rsum (map (fun x => x * x) d).
Proof. exact (Rsum_sq_nonneg (fun x => x) d). Qed.

Lemma Rsum_squares_zero (d : list R) :
  Rsum (map (fun x => x * x) d) = 0 -> Forall (fun x => x = 0) d.
Proof.
  induction d as [|x d IH]; simpl; intros H; constructor.
  - fold (Rsum (map (fun x => x * x) d)) in H.
    pose proof (Rsum_squares_nonneg d). nra.
  - apply IH. fold (Rsum (map (fun x => x * x) d)) in H.
    pose proof (Rsum_squares_nonneg d). nra.
Qed.

Lemma Rsum_zeros (d : list R) : Forall (fun x => x = 0) d -> Rsum d = 0.
Proof. induction 1 as [|x d -> _ IH]; simpl; [reflexivity|]. fold (Rsum d). lra. Qed.

Lemma differences_zero_iff (a : list R) : forall b,
  length a = length b ->
  (Forall (fun x => x = 0) (map (fun p => fst p - snd p) (combine a b)) <-> a = b).
Proof.
  induction a as [|x a IH]; intros [|y b] Hlen; simpl in *; try discriminate.
  - split; [reflexivity | constructor].
  - injection Hlen as Hlen. split.
    + intros H. inversion H as [|? ? Hxy Hrest]; subst.
      apply (IH b Hlen) in Hrest. subst. f_equal. lra.
    + intros [= -> ->]. constructor; [lra|]. now apply IH.
Qed.

Lemma exact_ss_res (a b : list R) :
  length a = length b ->
  ss_res a b =
  Return (Rsum (map (fun x => x * x) (map (fun p => fst p - snd p) (combine a b)))).
Proof.
  intros H. unfold ss_res. rewrite np_subtract_same_length by assumption.
  cbn [bind]. now rewrite np_sum_Rsum.
Qed.

Lemma exact_ss_tot (a : list R) :
  ss_tot a = Rsum (map (fun x => x * x) (map (fun x => x - np_mean a) a)).
Proof. unfold ss_tot. now rewrite np_sum_Rsum. Qed.

Lemma subtract_constant (a : list R) (m : R) :
  map (fun p => fst p - snd p) (combine a (repeat m (length a)))
  = map (fun x => x - m) a.
Proof. induction a as [|x a IH]; simpl; [reflexivity|]. now rewrite IH. Qed.

End ExactMore.

(** * Facts about the driver *)

Section DriverFacts.
Context {F : Type} {AF : Arith F}.

Lemma metrics_return (y_true y_pred : list F) :
  length y_true = length y_pred ->
  exists mse mae rmse r2,
    mean_squared_error y_true y_pred = Return mse /\
    mean_absolute_error y_true y_pred = Return mae /\
    root_mean_squared_error y_true y_pred = Return rmse /\
    r_squared y_true y_pred = Return r2.
Proof.
  intros H.
  unfold root_mean_squared_error, r_squared, ss_res, mean_squared_error,
    mean_absolute_error.
  rewrite np_subtract_same_length by assumption. cbn [bind].
  do 4 eexists. repeat split.
Qed.

Lemma calculate_losses_rows (ref_data obtained_data : ndarray F)
  (y_true y_pred : list F) (mse mae rmse r2 : F) :
  index_row ref_data 1 = Return y_true ->
  index_row obtained_data 1 = Return y_pred ->
  mean_squared_error y_true y_pred = Return mse ->
  mean_absolute_error y_true y_pred = Return mae ->
  root_mean_squared_error y_true y_pred = Return rmse ->
  r_squared y_true y_pred = Return r2 ->
  calculate_losses ref_data obtained_data =
    Return [("MSE", mse); ("MAE", mae); ("RMSE", rmse); ("R-squared", r2)]%string.
Proof.
  intros Hr Ho H1 H2 H3 H4. unfold calculate_losses.
  rewrite Hr. cbn [bind]. rewrite Ho. cbn [bind].
  rewrite H1. cbn [bind]. rewrite H2. cbn [bind]. rewrite H3. cbn [bind].
  rewrite H4. reflexivity.
Qed.

(** A reduction by an operation that returns one of its operands returns
    one of the elements. *)
Lemma combines_selects (op : F -> F -> F) (l : list F) (v : F) :
  (forall a b, op a b = a \/ op a b = b) ->
  combines op None l v -> In v l.
Proof.
  intros Hsel.
  induction 1 as [e He|x|l1 l2 v1 v2 _ IH1 _ IH2|l l' v Hp _ IH].
  - discriminate.
  - now left.
  - apply in_or_app. destruct (Hsel v1 v2) as [-> | ->]; tauto.
  - eapply Permutation_in; eassumption.
Qed.

Lemma np_min_nonempty (v : list F) :
  v <> [] -> exists lo, np_min v = Return lo /\ In lo v.
Proof.
  destruct v as [|x v]; [contradiction|]. intros _.
  eexists. split; [reflexivity|].
  apply combines_selects with (op := f_minimum).
  - intros a b. unfold f_minimum. destruct (f_lt a b || f_isnan a); tauto.
  - apply reduce_from_combines.
Qed.

Lemma np_max_nonempty (v : list F) :
  v <> [] -> exists hi, np_max v = Return hi /\ In hi v.
Proof.
  destruct v as [|x v]; [contradiction|]. intros _.
  eexists. split; [reflexivity|].
  apply combines_selects with (op := f_maximum).
  - intros a b. unfold f_maximum. destruct (f_lt b a || f_isnan a); tauto.
  - apply reduce_from_combines.
Qed.




End DriverFacts.

(** * Facts about the order of float64 and the ranges *)

Section OrderFacts.

Ltac cmp_cases :=
  repeat match goal with
  | |- context [PosDef.Pos.compare_cont Eq ?a ?b] =>
      change (PosDef.Pos.compare_cont Eq a b) with (Pos.compare a b)
  | H : context [PosDef.Pos.compare_cont Eq ?a ?b] |- _ =>
      change (PosDef.Pos.compare_cont Eq a b) with (Pos.compare a b) in H
  end;
  repeat match goal with
  | |- context [Z.compare ?a ?b] => destruct (Z.compare_spec a b)
  | H : context [Z.compare ?a ?b] |- _ => destruct (Z.compare_spec a b)
  | |- context [Pos.compare ?a ?b] => destruct (Pos.compare_spec a b)
  | H : context [Pos.compare ?a ?b] |- _ => destruct (Pos.compare_spec a b)
  end;
  simpl in *; subst; try reflexivity; try discriminate; try lia.

Lemma leb_refl x : isnan x = false -> Float64.leb x x = true.
Proof.
  destruct x as [s|s| |s m e]; try destruct s; simpl; intros H;
    try reflexivity; try discriminate;
    unfold Float64.leb, SFleb, SFcompare; cmp_cases.
Qed.

Lemma leb_total x y :
  isnan x = false -> isnan y = false ->
  Float64.leb x y = false -> Float64.leb y x = true.
Proof.
  destruct x as [sx|sx| |sx mx ex], y as [sy|sy| |sy my ey];
    try destruct sx; try destruct sy; simpl; intros Hx Hy H;
    try reflexivity; try discriminate;
    unfold Float64.leb, SFleb, SFcompare in *; cmp_cases.
Qed.

Lemma leb_trans x y z :
  Float64.leb x y = true -> Float64.leb y z = true -> Float64.leb x z = true.
Proof.
  destruct x as [sx|sx| |sx mx ex], y as [sy|sy| |sy my ey],
           z as [sz|sz| |sz mz ez];
    try destruct sx; try destruct sy; try destruct sz; simpl; intros H1 H2;
    try reflexivity; try discriminate;
    unfold Float64.leb, SFleb, SFcompare in *; cmp_cases.
Qed.

Lemma ltb_leb x y : Float64.ltb x y = true -> Float64.leb x y = true.
Proof.
  destruct x as [sx|sx| |sx mx ex], y as [sy|sy| |sy my ey];
    try destruct sx; try destruct sy; simpl; intros H;
    try reflexivity; try discriminate;
    unfold Float64.ltb, Float64.leb, SFltb, SFleb, SFcompare in *; cmp_cases.
Qed.

Lemma ltb_false_leb x y :
  isnan x = false -> isnan y = false ->
  Float64.ltb x y = false -> Float64.leb y x = true.
Proof.
  destruct x as [sx|sx| |sx mx ex], y as [sy|sy| |sy my ey];
    try destruct sx; try destruct sy; simpl; intros Hx Hy H;
    try reflexivity; try discriminate;
    unfold Float64.ltb, Float64.leb, SFltb, SFleb, SFcompare in *; cmp_cases.
Qed.

Lemma ltb_nan_r x : Float64.ltb x Float64.nan = false.
Proof. destruct x as [s|s| |s m e]; reflexivity. Qed.

End OrderFacts.

Section RangeFacts.

Lemma isnan_inv x : isnan x = true -> x = Float64.nan.
Proof. destruct x; try discriminate; reflexivity. Qed.

Lemma minimum_nan (x y : float64) :
  isnan x = true \/ isnan y = true -> f_minimum x y = Float64.nan.
Proof.
  unfold f_minimum. cbn [f_lt f_isnan binary64].
  intros [H|H]; apply isnan_inv in H; subst.
  - reflexivity.
  - rewrite ltb_nan_r. cbn [orb]. destruct (isnan x) eqn:Hx; [|reflexivity].
    now apply isnan_inv.
Qed.

Lemma maximum_nan (x y : float64) :
  isnan x = true \/ isnan y = true -> f_maximum x y = Float64.nan.
Proof.
  unfold f_maximum. cbn [f_lt f_isnan binary64].
  intros [H|H]; apply isnan_inv in H; subst.
  - now rewrite ltb_nan_r.
  - cbn [Float64.ltb SFltb SFcompare orb].
    destruct (isnan x) eqn:Hx; [|reflexivity]. now apply isnan_inv.
Qed.

(** A reduction by an operation that propagates NaN returns NaN as soon
    as one element is NaN. *)
Lemma combines_nan (op : float64 -> float64 -> float64) (l : list float64) v :
  (forall x y, isnan x = true \/ isnan y = true -> op x y = Float64.nan) ->
  combines op None l v -> Exists (fun x => isnan x = true) l ->
  v = Float64.nan.
Proof.
  intros Hop.
  induction 1 as [e He|x|l1 l2 v1 v2 _ IH1 _ IH2|l l' v Hp _ IH]; intros Hex.
  - discriminate.
  - inversion Hex as [? ? Hx|? ? Hx]; subst; [now apply isnan_inv | inversion Hx].
  - apply Exists_app in Hex. apply Hop.
    destruct Hex as [Hex|Hex]; [left; now rewrite IH1 | right; now rewrite IH2].
  - apply IH. apply Exists_exists in Hex. destruct Hex as (x & Hin & Hx).
    apply Exists_exists. exists x. split; [|assumption].
    eapply Permutation_in; [symmetry|]; eassumption.
Qed.

Lemma combines_minimum_bound (l : list float64) v :
  combines f_minimum None l v -> Forall (fun x => isnan x = false) l ->
  isnan v = false /\ Forall (fun x => Float64.leb v x = true) l.
Proof.
  induction 1 as [e He|x|l1 l2 v1 v2 _ IH1 _ IH2|l l' v Hp _ IH]; intros Hl.
  - discriminate.
  - inversion Hl; subst. split; [assumption|].
    constructor; [now apply leb_refl | constructor].
  - apply Forall_app in Hl. destruct Hl as [Hl1 Hl2].
    destruct (IH1 Hl1) as [Hn1 Hb1]. destruct (IH2 Hl2) as [Hn2 Hb2].
    assert (Hstep : f_minimum v1 v2 = if Float64.ltb v1 v2 then v1 else v2).
    { unfold f_minimum. cbn [f_lt f_isnan binary64]. now rewrite Hn1, orb_false_r. }
    rewrite Hstep. destruct (Float64.ltb v1 v2) eqn:Hlt.
    + split; [assumption|]. apply Forall_app. split; [assumption|].
      eapply Forall_impl; [|exact Hb2]. intros x Hx.
      apply leb_trans with (y := v2); [now apply ltb_leb | assumption].
    + split; [assumption|]. apply Forall_app. split; [|assumption].
      eapply Forall_impl; [|exact Hb1]. intros x Hx.
      apply leb_trans with (y := v1); [now apply ltb_false_leb | assumption].
  - assert (Hl' : Forall (fun x => isnan x = false) l)
      by (eapply Permutation_Forall; [symmetry|]; eassumption).
    destruct (IH Hl') as [Hn Hb]. split; [assumption|].
    eapply Permutation_Forall; eassumption.
Qed.

Lemma combines_maximum_bound (l : list float64) v :
  combines f_maximum None l v -> Forall (fun x => isnan x = false) l ->
  isnan v = false /\ Forall (fun x => Float64.leb x v = true) l.
Proof.
  induction 1 as [e He|x|l1 l2 v1 v2 _ IH1 _ IH2|l l' v Hp _ IH]; intros Hl.
  - discriminate.
  - inversion Hl; subst. split; [assumption|].
    constructor; [now apply leb_refl | constructor].
  - apply Forall_app in Hl. destruct Hl as [Hl1 Hl2].
    destruct (IH1 Hl1) as [Hn1 Hb1]. destruct (IH2 Hl2) as [Hn2 Hb2].
    assert (Hstep : f_maximum v1 v2 = if Float64.ltb v2 v1 then v1 else v2).
    { unfold f_maximum. cbn [f_lt f_isnan binary64]. now rewrite Hn1, orb_false_r. }
    rewrite Hstep. destruct (Float64.ltb v2 v1) eqn:Hlt.
    + split; [assumption|]. apply Forall_app. split; [assumption|].
      eapply Forall_impl; [|exact Hb2]. intros x Hx.
      apply leb_trans with (y := v2); [assumption | now apply ltb_leb].
    + split; [assumption|]. apply Forall_app. split; [|assumption].
      eapply Forall_impl; [|exact Hb1]. intros x Hx.
      apply leb_trans with (y := v1); [assumption | now apply ltb_false_leb].
  - assert (Hl' : Forall (fun x => isnan x = false) l)
      by (eapply Permutation_Forall; [symmetry|]; eassumption).
    destruct (IH Hl') as [Hn Hb]. split; [assumption|].
    eapply Permutation_Forall; eassumption.
Qed.

End RangeFacts.

(** * The claims of the specification *)

(** C1.  For equal-length sequences [yTrue], [yPred] with [n >= 1]
    elements, [r_squared yTrue yPred] returns [1 - SS_res / SS_tot], where
    [SS_res] is a sum over the indices [i < n] of the terms
    [(yTrue[i] - yPred[i])^2], [SS_tot] is a sum over the indices of the
    terms [(yTrue[i] - mean)^2], and [mean] is a sum of the [yTrue[i]]
    divided by [n].  A sum adds every term exactly once ([sums_to]); it
    holds in every arithmetic, float64 included, and in exact arithmetic
    a sum of the terms is their mathematical sum ([sums_to_exact]). *)
Theorem r_squared_formula {F : Type} {AF : Arith F} (yTrue yPred : list F) :
  length yTrue = length yPred -> 1 <= length yTrue ->
  exists total SS_res SS_tot : F,
    let n := length yTrue in
    let mean := f_div total (f_of_int (Z.of_nat n)) in
    sums_to (terms_over n (at_index yTrue)) total /\
    sums_to (terms_over n
               (fun i => squared_difference (at_index yTrue i) (at_index yPred i)))
            SS_res /\
    sums_to (terms_over n (fun i => squared_difference (at_index yTrue i) mean))
            SS_tot /\
    r_squared yTrue yPred = Return (f_sub (f_of_int 1) (f_div SS_res SS_tot)).
Proof.
  intros Hlen _.
  destruct (ss_res_terms yTrue yPred Hlen) as (res & Hres & Hsum).
  exists (np_sum yTrue), res, (ss_tot yTrue). cbv zeta.
  split; [apply np_sum_terms|]. split; [exact Hsum|].
  split; [apply ss_tot_terms|].
  unfold r_squared. rewrite Hres. reflexivity.
Qed.

(** C1 at [yTrue = [1; 2; 3]], [yPred = [2; 2; 2]] in float64. *)
Lemma r_squared_formula_witness :
  let yTrue := [of_int 1; of_int 2; of_int 3] in
  let yPred := [of_int 2; of_int 2; of_int 2] in
  exists total SS_res SS_tot : float64,
    let mean := Float64.div total (of_int 3) in
    sums_to (terms_over 3 (at_index yTrue)) total /\
    sums_to (terms_over 3
               (fun i => squared_difference (at_index yTrue i) (at_index yPred i)))
            SS_res /\
    sums_to (terms_over 3 (fun i => squared_difference (at_index yTrue i) mean))
            SS_tot /\
    r_squared yTrue yPred = Return (Float64.sub (of_int 1) (Float64.div SS_res SS_tot)).
Proof.
  intros yTrue yPred. apply (@r_squared_formula float64 binary64 yTrue yPred).
  - reflexivity.
  - simpl. lia.
Defined.

(** C2 as stated fails: for the single point [yTrue = yPred = [5]] the
    total sum of squares is zero, and [r_squared] returns NaN, not 1. *)
Lemma single_point_r_squared_nan :
  let y := [of_int 5] in
  mean_squared_error y y = Return pos_zero /\
  r_squared y y = Return Float64.nan /\
  r_squared y y <> Return (of_int 1).
Proof. repeat split; try reflexivity. discriminate. Qed.

(** C2, amended.  For a sequence of finite float64 values with at least
    one element, compared with itself: [mean_squared_error],
    [mean_absolute_error] and [root_mean_squared_error] return 0, and
    [r_squared] returns NaN when the total sum of squares [ss_tot]
    evaluates to zero or to NaN, and 1 otherwise. *)
Theorem identical_data_metrics (y : list float64) :
  1 <= length y -> Forall (fun x => isfinite x = true) y ->
  mean_squared_error y y = Return pos_zero /\
  mean_absolute_error y y = Return pos_zero /\
  root_mean_squared_error y y = Return pos_zero /\
  r_squared y y =
    Return (if is_zero (ss_tot y) || isnan (ss_tot y) then Float64.nan
            else of_int 1).
Proof.
  intros Hn Hfin.
  pose proof (sub_self_zeros Hfin) as Hd.
  set (d := map (fun p => f_sub (fst p) (snd p)) (combine y y)) in *.
  assert (Hld : length d = length y).
  { subst d. rewrite length_map, length_combine. lia. }
  assert (Hsq : Forall (fun x => x = pos_zero) (np_square d)).
  { unfold np_square. apply Forall_map. eapply Forall_impl; [|exact Hd].
    intros x ->. reflexivity. }
  assert (Hab : Forall (fun x => x = pos_zero) (np_abs d)).
  { unfold np_abs. apply Forall_map. eapply Forall_impl; [|exact Hd].
    intros x ->. reflexivity. }
  assert (Hmse : mean_squared_error y y = Return pos_zero).
  { unfold mean_squared_error. rewrite np_subtract_same_length by reflexivity.
    cbn [bind]. fold d. rewrite np_mean_zeros; try assumption; try reflexivity.
    unfold np_square. rewrite length_map. lia. }
  repeat split.
  - exact Hmse.
  - unfold mean_absolute_error. rewrite np_subtract_same_length by reflexivity.
    cbn [bind]. fold d. rewrite np_mean_zeros; try assumption; try reflexivity.
    unfold np_abs. rewrite length_map. lia.
  - unfold root_mean_squared_error. rewrite Hmse. reflexivity.
  - unfold r_squared, ss_res.
    rewrite np_subtract_same_length by reflexivity. cbn [bind]. fold d.
    rewrite np_sum_zeros by assumption.
    destruct (ss_tot y) as [s|s| |s m e]; try destruct s; reflexivity.
Qed.

(** C2, amended, at the reference column [[2; 4; 6]] of the first scenario
    of the specification, where [ss_tot] is 8 and [r_squared] returns 1,
    and at the single point [[5]], where [ss_tot] is 0 and [r_squared]
    returns NaN. *)
Lemma identical_data_metrics_witness :
  let y := [of_int 2; of_int 4; of_int 6] in
  (mean_squared_error y y = Return pos_zero /\
   mean_absolute_error y y = Return pos_zero /\
   root_mean_squared_error y y = Return pos_zero /\
   r_squared y y =
     Return (if is_zero (ss_tot y) || isnan (ss_tot y) then Float64.nan
             else of_int 1)) /\
  ss_tot y = of_int 8 /\
  r_squared y y = Return (of_int 1) /\
  ss_tot [of_int 5] = pos_zero /\
  r_squared [of_int 5] [of_int 5] = Return Float64.nan.
Proof.
  intros y.
  assert (H3 : 1 <= length y) by (simpl; lia).
  assert (F3 : Forall (fun x => isfinite x = true) y) by (repeat constructor).
  assert (H1 : 1 <= length [of_int 5]) by (simpl; lia).
  assert (F1 : Forall (fun x => isfinite x = true) [of_int 5])
    by (repeat constructor).
  split; [exact (identical_data_metrics H3 F3)|].
  split; [vm_compute; reflexivity|].
  split; [exact (proj2 (proj2 (proj2 (identical_data_metrics H3 F3))))|].
  split; [vm_compute; reflexivity|].
  exact (proj2 (proj2 (proj2 (identical_data_metrics H1 F1)))).
Defined.

(** C3.  For equal-length sequences with at least one element,
    [root_mean_squared_error] returns the float64 square root of what
    [mean_squared_error] returns. *)
Theorem rmse_is_sqrt_of_mse (yTrue yPred : list float64) :
  length yTrue = length yPred -> 1 <= length yTrue ->
  exists mse,
    mean_squared_error yTrue yPred = Return mse /\
    root_mean_squared_error yTrue yPred = Return (Float64.sqrt mse).
Proof.
  intros Hlen _. unfold root_mean_squared_error, mean_squared_error.
  rewrite np_subtract_same_length by assumption. simpl.
  eexists. split; reflexivity.
Qed.

(** C3 at [yTrue = [1; 2; 3]], [yPred = [2; 2; 2]]. *)
Lemma rmse_is_sqrt_of_mse_witness :
  exists mse,
    mean_squared_error [of_int 1; of_int 2; of_int 3]
                       [of_int 2; of_int 2; of_int 2] = Return mse /\
    root_mean_squared_error [of_int 1; of_int 2; of_int 3]
                            [of_int 2; of_int 2; of_int 2]
      = Return (Float64.sqrt mse).
Proof.
  apply rmse_is_sqrt_of_mse.
  - reflexivity.
  - simpl. lia.
Defined.

(** C4.  For [yTrue = [1; 2; 3]] and [yPred = [2; 2; 2]]:
    [mean_squared_error] and [mean_absolute_error] return 2/3 (in float64
    the correctly rounded quotient of 2 by 3, in exact arithmetic 2/3),
    [SS_res = 2], [SS_tot = 2] and [r_squared] returns 0;
    [calculate_losses] assembles these values from the second rows. *)
Theorem scenario_123_against_222 :
  let yTrue := [of_int 1; of_int 2; of_int 3] in
  let yPred := [of_int 2; of_int 2; of_int 2] in
  let x := [of_int 1; of_int 2; of_int 3] in
  let two_thirds := Float64.div (of_int 2) (of_int 3) in
  mean_squared_error yTrue yPred = Return two_thirds /\
  mean_absolute_error yTrue yPred = Return two_thirds /\
  ss_res yTrue yPred = Return (of_int 2) /\
  ss_tot yTrue = of_int 2 /\
  r_squared yTrue yPred = Return (of_int 0) /\
  calculate_losses (Arr2 2 3 [x; yTrue]) (Arr2 2 3 [x; yPred]) =
    Return [("MSE", two_thirds); ("MAE", two_thirds);
            ("RMSE", Float64.sqrt two_thirds);
            ("R-squared", of_int 0)]%string /\
  mean_squared_error [1; 2; 3]%R [2; 2; 2]%R = Return (2 / 3)%R /\
  mean_absolute_error [1; 2; 3]%R [2; 2; 2]%R = Return (2 / 3)%R /\
  r_squared [1; 2; 3]%R [2; 2; 2]%R = Return 0%R.
Proof.
  cbv zeta. repeat split; try (vm_compute; reflexivity).
  - rewrite exact_mse by reflexivity. f_equal. simpl. lra.
  - rewrite exact_mae by reflexivity. f_equal. simpl.
    assert (H1 : Rabs (1 - 2) = 1%R)
      by (unfold Rabs; destruct (Rcase_abs _); lra).
    assert (H2 : Rabs (2 - 2) = 0%R)
      by (unfold Rabs; destruct (Rcase_abs _); lra).
    assert (H3 : Rabs (3 - 2) = 1%R)
      by (unfold Rabs; destruct (Rcase_abs _); lra).
    rewrite H1, H2, H3. lra.
  - unfold r_squared, ss_res, ss_tot.
    rewrite np_subtract_same_length by reflexivity. cbn [bind].
    rewrite !np_sum_Rsum, np_mean_Rsum. f_equal. simpl. field.
Qed.

(** C5 as stated fails: with a NaN entry, which [np.genfromtxt] produces
    for a field that is not a number, both errors are NaN, and
    [NaN >= 0] is false. *)
Lemma nan_entry_errors_not_nonneg :
  mean_squared_error [Float64.nan] [of_int 0] = Return Float64.nan /\
  mean_absolute_error [Float64.nan] [of_int 0] = Return Float64.nan /\
  ~ nonnegative Float64.nan.
Proof. repeat split; try reflexivity. discriminate. Qed.

(** C5, amended.  For equal-length sequences with at least one element
    (and fewer than [2^63], the range of an array size), if no
    difference [yTrue[i] - yPred[i]] is NaN, then [mean_absolute_error]
    and [mean_squared_error] return values that are [>= 0].  By
    [finite_difference_not_nan] this covers all sequences of finite
    values. *)
Theorem errors_nonneg (yTrue yPred : list float64) :
  length yTrue = length yPred -> 1 <= length yTrue ->
  (Z.of_nat (length yTrue) < 2 ^ 63)%Z ->
  Forall (fun p => isnan (Float64.sub (fst p) (snd p)) = false)
         (combine yTrue yPred) ->
  exists mae mse,
    mean_absolute_error yTrue yPred = Return mae /\
    mean_squared_error yTrue yPred = Return mse /\
    nonnegative mae /\ nonnegative mse.
Proof.
  intros Hlen Hn Hb Hd.
  unfold mean_absolute_error, mean_squared_error.
  rewrite np_subtract_same_length by assumption. simpl.
  set (d := map (fun p => Float64.sub (fst p) (snd p)) (combine yTrue yPred)).
  assert (Hld : length d = length yTrue).
  { subst d. rewrite length_map, length_combine. lia. }
  assert (Hdn : Forall (fun x => isnan x = false) d).
  { subst d. apply Forall_map. exact Hd. }
  do 2 eexists. repeat split.
  - apply np_mean_nonneg.
    + unfold np_abs. rewrite length_map. lia.
    + unfold np_abs. rewrite length_map. lia.
    + unfold np_abs. apply Forall_map. eapply Forall_impl; [|exact Hdn].
      intros x. apply nonneg_abs.
  - apply np_mean_nonneg.
    + unfold np_square. rewrite length_map. lia.
    + unfold np_square. rewrite length_map. lia.
    + unfold np_square. apply Forall_map. eapply Forall_impl; [|exact Hdn].
      intros x. apply nonneg_square.
Qed.

(** C5, amended, at [yTrue = [1; 2; 3]], [yPred = [2; 2; 2]]. *)
Lemma errors_nonneg_witness :
  exists mae mse,
    mean_absolute_error [of_int 1; of_int 2; of_int 3]
                        [of_int 2; of_int 2; of_int 2] = Return mae /\
    mean_squared_error [of_int 1; of_int 2; of_int 3]
                       [of_int 2; of_int 2; of_int 2] = Return mse /\
    nonnegative mae /\ nonnegative mse.
Proof.
  apply errors_nonneg.
  - reflexivity.
  - simpl. lia.
  - simpl. lia.
  - repeat constructor.
Defined.

(** C6 fails on the code.  A file of one column and two rows is parsed to
    a vector of length 2; [load_data] tests the first dimension of what it
    got, finds 2, and returns the vector instead of refusing the file.  A
    file of a single field is parsed to a zero-dimensional array, and the
    test itself raises [IndexError], which no handler of [load_data]
    catches. *)
Theorem single_column_of_two_rows_is_loaded :
  let two_rows : filesystem float64 := fun _ => Some [[of_int 1]; [of_int 2]] in
  let one_field : filesystem float64 := fun _ => Some [[of_int 7]] in
  load_data two_rows "column.dat" = ([], Return (Arr1 [of_int 1; of_int 2])) /\
  load_data one_field "field.dat"
    = ([], Raise (IndexError "tuple index out of range")).
Proof. split; reflexivity. Qed.

(** C7.  For two files whose rows all hold exactly two fields, both are
    loaded, and [check_data_consistency] raises the [ValueError] of the
    shape mismatch when their numbers of rows differ, and returns when the
    two arrays have the same shape, as they do when the numbers of rows
    agree. *)
Theorem check_data_consistency_on_loaded {F : Type}
  (fs : filesystem F) (ref_name obtained_name : string)
  (ref_rows obtained_rows : list (list F)) :
  fs ref_name = Some ref_rows -> fs obtained_name = Some obtained_rows ->
  two_column_rows ref_rows -> two_column_rows obtained_rows ->
  exists ref_data obtained_data,
    load_data fs ref_name = ([], Return ref_data) /\
    load_data fs obtained_name = ([], Return obtained_data) /\
    (length ref_rows <> length obtained_rows ->
     check_data_consistency ref_data obtained_data
       = Raise (ValueError same_shape_msg)) /\
    (shape ref_data = shape obtained_data ->
     check_data_consistency ref_data obtained_data = Return tt) /\
    (length ref_rows = length obtained_rows ->
     check_data_consistency ref_data obtained_data = Return tt).
Proof.
  intros Hr Ho Hr2 Ho2.
  destruct (@load_data_two_columns F fs _ _ Hr Hr2) as (a & Ha & Hsa).
  destruct (@load_data_two_columns F fs _ _ Ho Ho2) as (b & Hb & Hsb).
  exists a, b. repeat split; try assumption.
  - intros Hne. apply check_different_shape. rewrite Hsa, Hsb.
    destruct (Nat.eqb_spec (length ref_rows) 1),
             (Nat.eqb_spec (length obtained_rows) 1);
      try discriminate; try congruence.
  - apply check_same_shape.
  - intros Heq. apply check_same_shape. rewrite Hsa, Hsb, Heq. reflexivity.
Qed.

(** C7 at a reference file of three points and an obtained file of two. *)
Lemma check_data_consistency_on_loaded_witness :
  let fs : filesystem float64 := fun name =>
    if String.eqb name "ref.dat"
    then Some [[of_int 1; of_int 2]; [of_int 2; of_int 4]; [of_int 3; of_int 6]]
    else Some [[of_int 1; of_int 2]; [of_int 2; of_int 4]] in
  exists ref_data obtained_data,
    load_data fs "ref.dat" = ([], Return ref_data) /\
    load_data fs "obtained.dat" = ([], Return obtained_data) /\
    (3 <> 2 ->
     check_data_consistency ref_data obtained_data
       = Raise (ValueError same_shape_msg)) /\
    (shape ref_data = shape obtained_data ->
     check_data_consistency ref_data obtained_data = Return tt) /\
    (3 = 2 ->
     check_data_consistency ref_data obtained_data = Return tt).
Proof.
  intros fs.
  apply (@check_data_consistency_on_loaded float64 fs "ref.dat" "obtained.dat"
           [[of_int 1; of_int 2]; [of_int 2; of_int 4]; [of_int 3; of_int 6]]
           [[of_int 1; of_int 2]; [of_int 2; of_int 4]]).
  - reflexivity.
  - reflexivity.
  - split; [discriminate | repeat constructor].
  - split; [discriminate | repeat constructor].
Defined.







(** C10 as stated fails in float64: for [yTrue = [0.1; 0.1; 0.1]] and
    [yPred = [0; 0; 0]] the mean absolute error is rounded up to
    [0.10000000000000002] while the root mean squared error is [0.1]. *)
Lemma rounded_mae_exceeds_rmse :
  let yTrue := [decimal 1 1; decimal 1 1; decimal 1 1] in
  let yPred := [of_int 0; of_int 0; of_int 0] in
  exists mae rmse,
    mean_absolute_error yTrue yPred = Return mae /\
    root_mean_squared_error yTrue yPred = Return rmse /\
    rmse = decimal 1 1 /\
    Float64.leb mae rmse = false /\ Float64.ltb rmse mae = true.
Proof. do 2 eexists. repeat split; vm_compute; reflexivity. Qed.

(** C10, amended.  In exact arithmetic, for equal-length sequences with
    at least one element, the value of [mean_absolute_error] is at most
    the value of [root_mean_squared_error]. *)
Theorem exact_mae_le_rmse (yTrue yPred : list R) :
  length yTrue = length yPred -> 1 <= length yTrue ->
  exists mae rmse,
    mean_absolute_error yTrue yPred = Return mae /\
    root_mean_squared_error yTrue yPred = Return rmse /\
    (mae <= rmse)%R.
Proof.
  intros Hlen Hn. unfold root_mean_squared_error.
  rewrite exact_mae, exact_mse by assumption. cbn [bind].
  do 2 eexists. repeat split.
  set (d := map (fun p => (fst p - snd p)%R) (combine yTrue yPred)).
  assert (Hd : length d = length yTrue).
  { subst d. rewrite length_map, length_combine. lia. }
  rewrite <- Hd. apply mean_abs_le_root_mean_sq. lia.
Qed.

(** C10, amended, at [yTrue = [1; 2; 3]], [yPred = [2; 2; 2]]. *)
Lemma exact_mae_le_rmse_witness :
  exists mae rmse,
    mean_absolute_error [1; 2; 3]%R [2; 2; 2]%R = Return mae /\
    root_mean_squared_error [1; 2; 3]%R [2; 2; 2]%R = Return rmse /\
    (mae <= rmse)%R.
Proof.
  apply exact_mae_le_rmse.
  - reflexivity.
  - simpl. lia.
Defined.

(** * Further properties of the code *)

(** X1.  Whenever [load_data] returns an array, it has printed nothing
    and the first dimension of the array is 2. *)
Theorem load_data_returns_first_dimension_two {F : Type}
  (fs : filesystem F) (filename : string) (out : list string) (data : ndarray F) :
  load_data fs filename = (out, Return data) ->
  out = [] /\ exists rest, shape data = 2 :: rest.
Proof.
  unfold load_data. destruct (load_data_try fs filename) as [d|e] eqn:Htry.
  - intros [= <- <-]. split; [reflexivity|].
    unfold load_data_try in Htry.
    destruct (genfromtxt fs filename) as [a|e]; [|discriminate]. cbn [bind] in Htry.
    destruct (shape (transpose a)) as [|n rest] eqn:Hs; [discriminate|].
    cbn [tuple_item nth_error bind] in Htry.
    destruct (Nat.eqb_spec n 2); [|discriminate].
    injection Htry as <-. subst n. exists rest. exact Hs.
  - destruct e; discriminate.
Qed.

Lemma load_data_returns_first_dimension_two_witness :
  let fs : filesystem float64 := fun _ =>
    Some [[of_int 1; of_int 2]; [of_int 2; of_int 4]; [of_int 3; of_int 6]] in
  exists data, load_data fs "ref.dat" = ([], Return data) /\
               ([] : list string) = [] /\ exists rest, shape data = 2 :: rest.
Proof.
  intros fs. eexists. split; [reflexivity|].
  apply (@load_data_returns_first_dimension_two float64 fs "ref.dat"). reflexivity.
Defined.

(** X2.  [load_data] never lets an [IOError] or a [ValueError] reach its
    caller: both are turned into a printed report and [sys.exit(1)]. *)
Theorem load_data_never_raises_io_or_value_error {F : Type}
  (fs : filesystem F) (filename : string) :
  snd (load_data fs filename) <> Raise IOError /\
  forall msg, snd (load_data fs filename) <> Raise (ValueError msg).
Proof.
  unfold load_data.
  destruct (load_data_try fs filename) as [d|e]; [split; intros; discriminate|].
  destruct e; split; intros; discriminate.
Qed.

(** X3.  A file whose rows all hold [c] fields, [c] other than 2, is
    refused: [load_data] prints that the file must contain exactly two
    columns and exits with status 1.  The empty file is refused this way;
    for a single column the refusal needs at least three rows. *)
Theorem load_data_rejects_other_column_counts {F : Type}
  (fs : filesystem F) (filename : string) (c : nat) (rows : list (list F)) :
  fs filename = Some rows -> rectangular c rows ->
  c <> 2 -> (c = 1 -> 3 <= length rows) ->
  load_data fs filename =
    (["Error: " ++ two_columns_msg filename]%string, Raise (SystemExit 1)).
Proof.
  intros Hfs Hrect Hc H1.
  assert (Hempty : skip_blank rows = [] ->
            load_data fs filename =
              (["Error: " ++ two_columns_msg filename]%string,
               Raise (SystemExit 1))).
  { intros Hblank. apply load_data_of_try_shape with (a := Arr1 []) (n := 0).
    - unfold genfromtxt. now rewrite Hfs, Hblank.
    - reflexivity.
    - discriminate. }
  destruct (Nat.eq_dec c 0) as [->|Hc0];
    [apply Hempty; now apply skip_blank_all_blank|].
  destruct rows as [|first others]; [now apply Hempty|].
  pose proof (rectangular_concat Hrect) as Hlen.
  pose proof (genfromtxt_rectangular fs filename Hfs Hrect Hc0) as Hg.
  cbn [squeeze] in Hg.
  destruct others as [|second rest].
  - cbn [length Nat.eqb] in Hg.
    destruct (Nat.eqb_spec c 1) as [->|Hc1]; [simpl in H1; lia|].
    apply load_data_of_try_shape with (a := Arr1 (concat [first])) (n := c).
    + exact Hg.
    + cbn [transpose shape tuple_item nth_error]. rewrite Hlen.
      simpl. now rewrite Nat.add_0_r.
    + assumption.
  - cbn [length Nat.eqb] in Hg.
    destruct (Nat.eqb_spec c 1) as [->|Hc1].
    + apply load_data_of_try_shape
        with (a := Arr1 (concat (first :: second :: rest)))
             (n := length (first :: second :: rest)).
      * exact Hg.
      * cbn [transpose shape tuple_item nth_error]. rewrite Hlen.
        now rewrite Nat.mul_1_r.
      * specialize (H1 eq_refl). lia.
    + apply load_data_of_try_shape
        with (a := Arr2 (S (S (length rest))) c (first :: second :: rest))
             (n := c).
      * exact Hg.
      * reflexivity.
      * assumption.
Qed.

Lemma load_data_rejects_other_column_counts_witness :
  let fs : filesystem float64 := fun _ =>
    Some [[of_int 1; of_int 2; of_int 3]; [of_int 4; of_int 5; of_int 6]] in
  load_data fs "three.dat" =
    (["Error: " ++ two_columns_msg "three.dat"]%string, Raise (SystemExit 1)).
Proof.
  intros fs.
  apply (@load_data_rejects_other_column_counts float64 fs "three.dat" 3
           [[of_int 1; of_int 2; of_int 3]; [of_int 4; of_int 5; of_int 6]]).
  - reflexivity.
  - repeat constructor.
  - discriminate.
  - discriminate.
Defined.

(** X4.  A file whose first line has fields, and in which some later
    line has fields but not as many as the first, is refused with the
    parser's error and exit status 1.  [load_data] prints the whole
    message after [Error: ]: the line [Some errors were detected !], then
    one line for every line of the file with a wrong number of fields,
    with its number in the file, the number of fields it has and the
    number expected. *)
Theorem load_data_rejects_ragged_rows {F : Type}
  (fs : filesystem F) (filename : string) (first : list F)
  (others : list (list F)) (row : list F) :
  fs filename = Some (first :: others) -> first <> [] ->
  In row others -> row <> [] -> length row <> length first ->
  load_data fs filename =
    (["Error: " ++ genfromtxt_msg (length first)
                     (numbered_bad_lines (length first) others)]%string,
     Raise (SystemExit 1)).
Proof.
  intros Hfs Hfirst Hin Hrow Hlen. unfold load_data, load_data_try.
  rewrite (@genfromtxt_ragged F fs filename first others Hfs Hfirst).
  - reflexivity.
  - now apply bad_line_numbered with (row := row).
Qed.

(** X4 at a file of a two-field line followed by a three-field line. *)
Lemma load_data_rejects_ragged_rows_witness :
  let fs : filesystem float64 := fun _ =>
    Some [[of_int 1; of_int 2]; [of_int 3; of_int 4; of_int 5]] in
  load_data fs "ragged.dat" =
    (["Error: Some errors were detected !" ++ newline ++
      "    Line #2 (got 3 columns instead of 2)"]%string,
     Raise (SystemExit 1)).
Proof.
  intros fs.
  apply (@load_data_rejects_ragged_rows float64 fs "ragged.dat"
           [of_int 1; of_int 2] [[of_int 3; of_int 4; of_int 5]]
           [of_int 3; of_int 4; of_int 5]).
  - reflexivity.
  - discriminate.
  - left. reflexivity.
  - discriminate.
  - discriminate.
Defined.

(** X5.  A file of at least two points, one [x y] row each, is loaded as
    a 2 by [n] array whose row 0 holds the [x] values and row 1 the [y]
    values, in file order. *)
Theorem load_data_transposes_points {F : Type}
  (fs : filesystem F) (filename : string) (pts : list (F * F)) :
  fs filename = Some (map point_row pts) -> 2 <= length pts ->
  exists data,
    load_data fs filename = ([], Return data) /\
    shape data = [2; length pts] /\
    index_row data 0 = Return (map fst pts) /\
    index_row data 1 = Return (map snd pts).
Proof.
  intros Hfs Hn. eexists. split; [apply load_data_points; eassumption|].
  repeat split.
Qed.

Lemma load_data_transposes_points_witness :
  let pts := [(of_int 1, of_int 2); (of_int 2, of_int 4); (of_int 3, of_int 6)] in
  let fs : filesystem float64 := fun _ => Some (map point_row pts) in
  exists data,
    load_data fs "ref.dat" = ([], Return data) /\
    shape data = [2; length pts] /\
    index_row data 0 = Return (map fst pts) /\
    index_row data 1 = Return (map snd pts).
Proof.
  intros pts fs.
  apply (@load_data_transposes_points float64 fs "ref.dat" pts).
  - reflexivity.
  - simpl. lia.
Defined.

(** X6.  For arrays of different lengths, neither of length 1, all four
    metrics raise the [ValueError] of the failed broadcast, whose message
    names the two shapes in the order of the arguments. *)
Theorem metrics_raise_on_length_mismatch {F : Type} {AF : Arith F}
  (y_true y_pred : list F) :
  length y_true <> length y_pred ->
  length y_true <> 1 -> length y_pred <> 1 ->
  mean_squared_error y_true y_pred =
    Raise (ValueError (broadcast_msg (length y_true) (length y_pred))) /\
  mean_absolute_error y_true y_pred =
    Raise (ValueError (broadcast_msg (length y_true) (length y_pred))) /\
  root_mean_squared_error y_true y_pred =
    Raise (ValueError (broadcast_msg (length y_true) (length y_pred))) /\
  r_squared y_true y_pred =
    Raise (ValueError (broadcast_msg (length y_true) (length y_pred))).
Proof.
  intros Hab Ha Hb.
  pose proof (@np_subtract_not_broadcastable F AF y_true y_pred Hab Ha Hb) as H.
  unfold root_mean_squared_error, r_squared, ss_res,
    mean_squared_error, mean_absolute_error.
  rewrite H. repeat split.
Qed.

Lemma metrics_raise_on_length_mismatch_witness :
  let y_true := [of_int 1; of_int 2; of_int 3] in
  let y_pred := [of_int 1; of_int 2] in
  let e := ValueError
    "operands could not be broadcast together with shapes (3,) (2,) " in
  mean_squared_error y_true y_pred = Raise e /\
  mean_absolute_error y_true y_pred = Raise e /\
  root_mean_squared_error y_true y_pred = Raise e /\
  r_squared y_true y_pred = Raise e.
Proof.
  intros y_true y_pred.
  apply (@metrics_raise_on_length_mismatch float64 binary64 y_true y_pred);
    simpl; lia.
Defined.



(** X8.  For equal-length float64 sequences with at least one element
    (fewer than [2^63]) and no NaN difference, [root_mean_squared_error]
    returns a value [>= 0]; in particular it is not NaN. *)
Theorem rmse_nonneg (yTrue yPred : list float64) :
  length yTrue = length yPred -> 1 <= length yTrue ->
  (Z.of_nat (length yTrue) < 2 ^ 63)%Z ->
  Forall (fun p => isnan (Float64.sub (fst p) (snd p)) = false)
         (combine yTrue yPred) ->
  exists rmse,
    root_mean_squared_error yTrue yPred = Return rmse /\ nonnegative rmse.
Proof.
  intros Hlen Hn Hb Hd.
  unfold root_mean_squared_error, mean_squared_error.
  rewrite np_subtract_same_length by assumption. cbn [bind].
  eexists. split; [reflexivity|].
  apply nonneg_sqrt. apply np_mean_nonneg.
  - unfold np_square. rewrite !length_map, length_combine. lia.
  - unfold np_square. rewrite !length_map, length_combine. lia.
  - unfold np_square. apply Forall_map, Forall_map.
    eapply Forall_impl; [|exact Hd]. intros p. apply nonneg_square.
Qed.

Lemma rmse_nonneg_witness :
  exists rmse,
    root_mean_squared_error [of_int 1; of_int 2; of_int 3]
                            [of_int 2; of_int 2; of_int 2] = Return rmse /\
    nonnegative rmse.
Proof.
  apply rmse_nonneg.
  - reflexivity.
  - simpl. lia.
  - simpl. lia.
  - repeat constructor.
Defined.

(** X9.  In exact arithmetic, for equal-length sequences with at least one
    element, [mean_squared_error] returns 0 exactly when the two sequences
    are equal. *)
Theorem exact_mse_zero_iff_equal (yTrue yPred : list R) :
  length yTrue = length yPred -> 1 <= length yTrue ->
  (mean_squared_error yTrue yPred = Return 0%R <-> yTrue = yPred).
Proof.
  intros Hlen Hn. rewrite exact_mse by assumption.
  assert (Hpos : (0 < INR (length yTrue))%R) by (apply lt_0_INR; lia).
  set (d := map (fun p => (fst p - snd p)%R) (combine yTrue yPred)).
  rewrite <- (differences_zero_iff yTrue yPred Hlen). fold d.
  split.
  - intros [= H]. apply Rsum_squares_zero.
    apply Rmult_eq_compat_r with (r := INR (length yTrue)) in H.
    unfold Rdiv in H. rewrite Rmult_assoc, Rinv_l, Rmult_1_r, Rmult_0_l in H by lra.
    exact H.
  - intros H. f_equal.
    assert (Hz : Rsum (map (fun x => (x * x)%R) d) = 0%R).
    { apply Rsum_zeros. apply Forall_map. eapply Forall_impl; [|exact H].
      intros x ->. lra. }
    rewrite Hz. unfold Rdiv. lra.
Qed.

Lemma exact_mse_zero_iff_equal_witness :
  mean_squared_error [1; 2; 3]%R [1; 2; 3]%R = Return 0%R <->
  [1; 2; 3]%R = [1; 2; 3]%R.
Proof.
  apply exact_mse_zero_iff_equal.
  - reflexivity.
  - simpl. lia.
Defined.

(** X10.  In exact arithmetic, for equal-length sequences with a nonzero
    total sum of squares, [r_squared] returns a value at most 1, and 1
    exactly when the prediction equals the reference. *)
Theorem exact_r_squared_at_most_one (yTrue yPred : list R) :
  length yTrue = length yPred -> ss_tot yTrue <> 0%R ->
  exists r2,
    r_squared yTrue yPred = Return r2 /\
    (r2 <= 1)%R /\ (r2 = 1%R <-> yPred = yTrue).
Proof.
  intros Hlen Htot. unfold r_squared. rewrite exact_ss_res by assumption.
  cbn [bind]. eexists. split; [reflexivity|].
  set (d := map (fun p => (fst p - snd p)%R) (combine yTrue yPred)).
  pose proof (Rsum_squares_nonneg d) as Hres.
  assert (Hpos : (0 < ss_tot yTrue)%R).
  { rewrite exact_ss_tot in *.
    pose proof (Rsum_squares_nonneg (map (fun x => (x - np_mean yTrue)%R) yTrue)).
    lra. }
  cbv zeta. cbn [f_sub f_div f_of_int exact].
  assert (Hq : (0 <= Rsum (map (fun x => x * x) d) / ss_tot yTrue)%R).
  { apply Rmult_le_pos; [assumption|]. apply Rlt_le, Rinv_0_lt_compat. assumption. }
  split; [lra|]. split.
  - intros H.
    assert (Hz : Rsum (map (fun x => (x * x)%R) d) = 0%R).
    { assert (Hq0 : (Rsum (map (fun x => x * x) d) / ss_tot yTrue = 0)%R) by lra.
      apply Rmult_eq_compat_r with (r := ss_tot yTrue) in Hq0.
      unfold Rdiv in Hq0.
      rewrite Rmult_assoc, Rinv_l, Rmult_1_r, Rmult_0_l in Hq0 by lra.
      exact Hq0. }
    apply Rsum_squares_zero in Hz. symmetry.
    now apply (differences_zero_iff yTrue yPred Hlen).
  - intros ->.
    assert (Hz : Rsum (map (fun x => (x * x)%R) d) = 0%R).
    { apply Rsum_zeros. apply Forall_map. subst d.
      pose proof (proj2 (differences_zero_iff yTrue yTrue eq_refl) eq_refl) as H.
      eapply Forall_impl; [|exact H]. intros x ->. lra. }
    rewrite Hz. unfold Rdiv. lra.
Qed.

Lemma exact_r_squared_at_most_one_witness :
  exists r2,
    r_squared [1; 2; 3]%R [2; 2; 2]%R = Return r2 /\
    (r2 <= 1)%R /\ (r2 = 1%R <-> [2; 2; 2]%R = [1; 2; 3]%R).
Proof.
  apply exact_r_squared_at_most_one.
  - reflexivity.
  - rewrite exact_ss_tot, np_mean_Rsum. simpl. lra.
Defined.

(** X11.  In exact arithmetic, when the total sum of squares is not zero,
    [r_squared] of the constant prediction [mean(yTrue)] is 0. *)
Theorem exact_r_squared_of_mean_is_zero (yTrue : list R) :
  ss_tot yTrue <> 0%R ->
  r_squared yTrue (repeat (np_mean yTrue) (length yTrue)) = Return 0%R.
Proof.
  intros Htot. unfold r_squared.
  rewrite exact_ss_res by (now rewrite repeat_length).
  cbn [bind]. rewrite subtract_constant, <- exact_ss_tot.
  f_equal. cbv zeta. cbn [f_sub f_div f_of_int exact].
  unfold Rdiv. rewrite Rinv_r by assumption. lra.
Qed.

Lemma exact_r_squared_of_mean_is_zero_witness :
  r_squared [1; 2; 3]%R (repeat (np_mean [1; 2; 3]%R) 3) = Return 0%R.
Proof.
  apply (@exact_r_squared_of_mean_is_zero [1; 2; 3]%R).
  rewrite exact_ss_tot, np_mean_Rsum. simpl. lra.
Defined.

(** X12.  [calculate_losses] returns the values of the four metrics on
    the rows of index 1 of its two arrays, under the names MSE, MAE, RMSE
    and R-squared in this order; the rows of index 0 play no part. *)
Theorem calculate_losses_of_second_rows {F : Type} {AF : Arith F}
  (ref_data obtained_data : ndarray F) (y_true y_pred : list F) :
  index_row ref_data 1 = Return y_true ->
  index_row obtained_data 1 = Return y_pred ->
  length y_true = length y_pred ->
  exists mse mae rmse r2,
    mean_squared_error y_true y_pred = Return mse /\
    mean_absolute_error y_true y_pred = Return mae /\
    root_mean_squared_error y_true y_pred = Return rmse /\
    r_squared y_true y_pred = Return r2 /\
    calculate_losses ref_data obtained_data =
      Return [("MSE", mse); ("MAE", mae); ("RMSE", rmse);
              ("R-squared", r2)]%string.
Proof.
  intros Hr Ho Hlen.
  destruct (metrics_return y_true y_pred Hlen) as (mse & mae & rmse & r2 & H1 & H2 & H3 & H4).
  exists mse, mae, rmse, r2. repeat split; try assumption.
  now apply calculate_losses_rows with (y_true := y_true) (y_pred := y_pred).
Qed.

Lemma calculate_losses_of_second_rows_witness :
  let x := [of_int 1; of_int 2; of_int 3] in
  let y_true := [of_int 1; of_int 2; of_int 3] in
  let y_pred := [of_int 2; of_int 2; of_int 2] in
  exists mse mae rmse r2,
    mean_squared_error y_true y_pred = Return mse /\
    mean_absolute_error y_true y_pred = Return mae /\
    root_mean_squared_error y_true y_pred = Return rmse /\
    r_squared y_true y_pred = Return r2 /\
    calculate_losses (Arr2 2 3 [x; y_true]) (Arr2 2 3 [x; y_pred]) =
      Return [("MSE", mse); ("MAE", mae); ("RMSE", rmse);
              ("R-squared", r2)]%string.
Proof.
  intros x y_true y_pred.
  apply (@calculate_losses_of_second_rows float64 binary64); reflexivity.
Defined.


(** X17.  If a float64 column holds a NaN, its minimum and its maximum,
    the two bounds of the printed range, are both NaN. *)
Theorem range_of_column_with_nan (v : list float64) :
  Exists (fun x => isnan x = true) v ->
  np_min v = Return Float64.nan /\ np_max v = Return Float64.nan.
Proof.
  intros H. destruct v as [|x v]; [inversion H|].
  unfold np_min, np_max. split; f_equal.
  - apply combines_nan with (op := f_minimum) (l := x :: v);
      [apply minimum_nan | apply reduce_from_combines | exact H].
  - apply combines_nan with (op := f_maximum) (l := x :: v);
      [apply maximum_nan | apply reduce_from_combines | exact H].
Qed.

Lemma range_of_column_with_nan_witness :
  np_min [of_int 1; Float64.nan; of_int 3] = Return Float64.nan /\
  np_max [of_int 1; Float64.nan; of_int 3] = Return Float64.nan.
Proof.
  apply range_of_column_with_nan. right. left. reflexivity.
Defined.

(** X18.  For a non-empty float64 column without NaN, the minimum and the
    maximum are elements of the column, and every element lies between
    them. *)
Theorem range_bounds_the_column (v : list float64) :
  v <> [] -> Forall (fun x => isnan x = false) v ->
  exists lo hi,
    np_min v = Return lo /\ np_max v = Return hi /\
    In lo v /\ In hi v /\
    Forall (fun x => Float64.leb lo x = true /\ Float64.leb x hi = true) v.
Proof.
  intros Hne Hv.
  destruct (@np_min_nonempty float64 binary64 v Hne) as (lo & Hlo & Hinlo).
  destruct (@np_max_nonempty float64 binary64 v Hne) as (hi & Hhi & Hinhi).
  exists lo, hi. repeat split; try assumption.
  destruct v as [|x v]; [contradiction|].
  injection Hlo as <-. injection Hhi as <-.
  destruct (@combines_minimum_bound (x :: v) _
              (reduce_from_combines f_minimum None x v) Hv) as [_ Hl].
  destruct (@combines_maximum_bound (x :: v) _
              (reduce_from_combines f_maximum None x v) Hv) as [_ Hh].
  rewrite Forall_forall in *. intros y Hy. split; auto.
Qed.

Lemma range_bounds_the_column_witness :
  exists lo hi,
    np_min [of_int 2; of_int 1; of_int 3] = Return lo /\
    np_max [of_int 2; of_int 1; of_int 3] = Return hi /\
    In lo [of_int 2; of_int 1; of_int 3] /\
    In hi [of_int 2; of_int 1; of_int 3] /\
    Forall (fun x => Float64.leb lo x = true /\ Float64.leb x hi = true)
           [of_int 2; of_int 1; of_int 3].
Proof.
  apply range_bounds_the_column.
  - discriminate.
  - repeat constructor.
Defined.


(** X14.  For two two-column files with different numbers of rows, [main]
    prints only the shape error and exits with status 1. *)
Theorem main_exits_on_shape_mismatch {F : Type} {AF : Arith F}
  (format_float : Z -> F -> outcome string) (fs : filesystem F) (a : args)
  (ref_rows obtained_rows : list (list F)) :
  fs (ref_file a) = Some ref_rows ->
  fs (obtained_file a) = Some obtained_rows ->
  two_column_rows ref_rows -> two_column_rows obtained_rows ->
  length ref_rows <> length obtained_rows ->
  main format_float fs a =
    (["Error: " ++ same_shape_msg]%string, Raise (SystemExit 1)).
Proof.
  intros Hr Ho Hr2 Ho2 Hne.
  destruct (@load_data_two_columns F fs _ _ Hr Hr2) as (rd & Hrd & Hsr).
  destruct (@load_data_two_columns F fs _ _ Ho Ho2) as (od & Hod & Hso).
  unfold main. rewrite Hrd. cbn [io_bind app]. rewrite Hod. cbn [io_bind app].
  rewrite check_different_shape; [reflexivity|].
  rewrite Hsr, Hso.
  destruct (Nat.eqb_spec (length ref_rows) 1),
           (Nat.eqb_spec (length obtained_rows) 1);
    try discriminate; try congruence.
Qed.

Lemma main_exits_on_shape_mismatch_witness :
  let fs : filesystem float64 := fun name =>
    if String.eqb name "ref.dat"
    then Some [[of_int 1; of_int 2]; [of_int 2; of_int 4]; [of_int 3; of_int 6]]
    else Some [[of_int 1; of_int 2]; [of_int 2; of_int 4]] in
  let a := {| ref_file := "ref.dat"; obtained_file := "obtained.dat";
              precision := 10 |} in
  main (fun _ _ => Return ""%string) fs a =
    (["Error: " ++ same_shape_msg]%string, Raise (SystemExit 1)).
Proof.
  intros fs a.
  apply (@main_exits_on_shape_mismatch float64 binary64 _ fs a
           [[of_int 1; of_int 2]; [of_int 2; of_int 4]; [of_int 3; of_int 6]]
           [[of_int 1; of_int 2]; [of_int 2; of_int 4]]).
  - reflexivity.
  - reflexivity.
  - split; [discriminate | repeat constructor].
  - split; [discriminate | repeat constructor].
  - simpl. lia.
Defined.

(** X15.  A file with a single point is loaded as a vector of length 2.
    With two such files the consistency check passes, and [main] ends
    with the [IndexError] of indexing a vector with two indices, raised in
    [calculate_losses], nothing printed. *)
Theorem main_fails_on_single_points {F : Type} {AF : Arith F}
  (format_float : Z -> F -> outcome string) (fs : filesystem F) (a : args)
  (p q : F * F) :
  fs (ref_file a) = Some [point_row p] ->
  fs (obtained_file a) = Some [point_row q] ->
  load_data fs (ref_file a) = ([], Return (Arr1 [fst p; snd p])) /\
  check_data_consistency (Arr1 [fst p; snd p]) (Arr1 [fst q; snd q]) = Return tt /\
  main format_float fs a =
    ([], Raise (IndexError
       "too many indices for array: array is 1-dimensional, but 2 were indexed")).
Proof.
  intros Hr Ho.
  assert (Hload : forall f pt, fs f = Some [point_row pt] ->
            load_data fs f = ([], Return (Arr1 [fst pt; snd pt]))).
  { intros f pt Hf. unfold load_data, load_data_try, genfromtxt. rewrite Hf.
    reflexivity. }
  split; [now apply Hload|]. split; [reflexivity|].
  unfold main. rewrite (Hload _ _ Hr). cbn [io_bind app].
  rewrite (Hload _ _ Ho). reflexivity.
Qed.

Lemma main_fails_on_single_points_witness :
  let fs : filesystem float64 := fun _ => Some [point_row (of_int 1, of_int 2)] in
  let a := {| ref_file := "ref.dat"; obtained_file := "obtained.dat";
              precision := 10 |} in
  load_data fs (ref_file a) = ([], Return (Arr1 [of_int 1; of_int 2])) /\
  check_data_consistency (Arr1 [of_int 1; of_int 2]) (Arr1 [of_int 1; of_int 2])
    = Return tt /\
  main (fun _ _ => Return ""%string) fs a =
    ([], Raise (IndexError
       "too many indices for array: array is 1-dimensional, but 2 were indexed")).
Proof.
  intros fs a.
  apply (@main_fails_on_single_points float64 binary64 _ fs a
           (of_int 1, of_int 2) (of_int 1, of_int 2)); reflexivity.
Defined.

(** X16.  For two files of the same number [n >= 2] of points, if the
    formatter raises on the first loss, [main] ends with that exception
    after printing only the heading of the losses. *)
Theorem main_stops_when_formatting_fails {F : Type} {AF : Arith F}
  (format_float : Z -> F -> outcome string) (fs : filesystem F) (a : args)
  (ref_pts obtained_pts : list (F * F)) (mse : F) (e : exn) :
  fs (ref_file a) = Some (map point_row ref_pts) ->
  fs (obtained_file a) = Some (map point_row obtained_pts) ->
  length ref_pts = length obtained_pts -> 2 <= length ref_pts ->
  mean_squared_error (map snd ref_pts) (map snd obtained_pts) = Return mse ->
  format_float (precision a) mse = Raise e ->
  main format_float fs a = (["Loss values:"%string], Raise e).
Proof.
  intros Hr Ho Hlen Hn Hmse Hfmt.
  assert (Hlen' : length (map snd ref_pts) = length (map snd obtained_pts))
    by (rewrite !length_map; exact Hlen).
  destruct (metrics_return _ _ Hlen') as (mse' & mae & rmse & r2 & H1 & H2 & H3 & H4).
  assert (mse' = mse) by congruence. subst mse'.
  unfold main.
  rewrite (load_data_points fs (ref_file a) ref_pts Hr Hn).
  cbn [io_bind app].
  rewrite (load_data_points fs (obtained_file a) obtained_pts Ho ltac:(lia)).
  cbn [io_bind app].
  rewrite check_same_shape by (cbn [shape]; now rewrite Hlen).
  cbn [lift io_bind app].
  rewrite (@calculate_losses_rows F AF
             (Arr2 2 (length ref_pts) [map fst ref_pts; map snd ref_pts])
             (Arr2 2 (length obtained_pts) [map fst obtained_pts; map snd obtained_pts])
             (map snd ref_pts) (map snd obtained_pts)
             mse mae rmse r2 eq_refl eq_refl H1 H2 H3 H4).
  cbn [print io_bind app print_losses lift]. rewrite Hfmt. reflexivity.
Qed.

Lemma main_stops_when_formatting_fails_witness :
  let ref_pts := [(of_int 1, of_int 2); (of_int 2, of_int 4); (of_int 3, of_int 6)] in
  let fs : filesystem float64 := fun _ => Some (map point_row ref_pts) in
  let a := {| ref_file := "ref.dat"; obtained_file := "obtained.dat";
              precision := -1 |} in
  let format_float : Z -> float64 -> outcome string := fun p _ =>
    if (p <? 0)%Z then Raise (ValueError "Format specifier missing precision")
    else Return ""%string in
  main format_float fs a =
    (["Loss values:"%string],
     Raise (ValueError "Format specifier missing precision")).
Proof.
  intros ref_pts fs a format_float.
  apply (@main_stops_when_formatting_fails float64 binary64 format_float fs a
           ref_pts ref_pts pos_zero).
  - reflexivity.
  - reflexivity.
  - reflexivity.
  - simpl. lia.
  - reflexivity.
  - reflexivity.
Defined.
